(** * MyBookshelf: the record store and the custom-order list

    A shallow embedding of [js/book-manager.js] (class [BookManager]) and of
    the ordering, annotation and export code of [js/bookshelf.js], with the
    properties of the specification stated over it.

    Modelling conventions.
    - A JavaScript value stored in a book field is one of the JSON
      primitives or [undefined]; numbers are the integers the code produces
      (time stamps, counts, indices), within the range a double holds
      exactly.  Strict equality [===] is then Rocq's equality on [JsVal].
    - A plain object is a finite map from property names to values; reading
      an absent property gives [undefined].
    - Strings are sequences of one-byte characters.
    - [Date.now()] reads an oracle [now], indexed by the number of reads made
      so far; [JSON.stringify] is a parameter of the store. *)

From Stdlib Require Import ZArith Ascii String.
From stdpp Require Import gmap strings list fin_maps pretty sorting.

Local Open Scope string_scope.
Local Open Scope list_scope.
Local Open Scope Z_scope.

(** ** JavaScript values *)

Inductive JsVal : Type :=
| JUndefined
| JNull
| JBool (b : bool)
| JNum (n : Z)
| JStr (s : string).

Global Instance JsVal_eq_dec : EqDecision JsVal.
Proof. solve_decision. Defined.

Global Instance JsVal_inhabited : Inhabited JsVal := populate JUndefined.

Definition JsVal_to_sum (v : JsVal) : unit + (unit + (bool + (Z + string))) :=
  match v with
  | JUndefined => inl ()
  | JNull => inr (inl ())
  | JBool b => inr (inr (inl b))
  | JNum n => inr (inr (inr (inl n)))
  | JStr s => inr (inr (inr (inr s)))
  end.

Definition JsVal_of_sum (x : unit + (unit + (bool + (Z + string)))) : JsVal :=
  match x with
  | inl _ => JUndefined
  | inr (inl _) => JNull
  | inr (inr (inl b)) => JBool b
  | inr (inr (inr (inl n))) => JNum n
  | inr (inr (inr (inr s))) => JStr s
  end.

Global Instance JsVal_countable : Countable JsVal.
Proof.
  apply (inj_countable' JsVal_to_sum JsVal_of_sum).
  by intros [].
Defined.

(** [ToBoolean]: what [!v], [v || d] and [if (v)] test. *)
Definition truthy (v : JsVal) : bool :=
  match v with
  | JUndefined | JNull => false
  | JBool b => b
  | JNum n => negb (n =? 0)
  | JStr s => negb (bool_decide (s = ""))
  end.

(** [a || b] *)
Definition js_or (a b : JsVal) : JsVal := if truthy a then a else b.

(** [ToString], used by [RegExp.prototype.test], by template literals and by
    property keys. *)
Definition ToString (v : JsVal) : string :=
  match v with
  | JUndefined => "undefined"
  | JNull => "null"
  | JBool true => "true"
  | JBool false => "false"
  | JNum n => pretty n
  | JStr s => s
  end.

(** Plain objects. *)
Abbreviation Obj := (gmap string JsVal).

(** [o.k] *)
Definition get (o : Obj) (k : string) : JsVal := default JUndefined (o !! k).

(** [Object.assign(target, source)]: the properties of [source] win. *)
Definition Object_assign (target source : Obj) : Obj := source ∪ target.

(** [a.indexOf(x)]: first index holding a value [===] to [x], or [-1]. *)
Fixpoint indexOf (a : list JsVal) (x : JsVal) : Z :=
  match a with
  | [] => -1
  | y :: a' =>
      if decide (y = x) then 0
      else let i := indexOf a' x in if i =? -1 then -1 else i + 1
  end.

(** [a.includes(x)] *)
Definition includes (a : list JsVal) (x : JsVal) : bool := bool_decide (x ∈ a).

(** ** Regular expressions

    The fragment of the regular-expression language the source uses, with
    the backtracking semantics of [RegExp.prototype.exec]: alternatives are
    tried left to right, [*] is greedy, and the search tries every start
    position from the left.  The only starred expression in the source is
    [.], so the star is taken over a single-character set. *)

Inductive Regex : Type :=
| RChar (c : ascii)
| RSet (p : ascii → bool)
| RSeq (r1 r2 : Regex)
| RAlt (r1 r2 : Regex)
| RStarSet (p : ascii → bool)
| RRepeat (n : nat) (r : Regex)
| RGroup (r : Regex)
| RBol
| REol.

(** [string] as [list ascii], the matcher's input. *)
Fixpoint chars (s : string) : list ascii :=
  match s with
  | EmptyString => []
  | String c s' => c :: chars s'
  end.

Fixpoint unchars (l : list ascii) : string :=
  match l with
  | [] => EmptyString
  | c :: l' => String c (unchars l')
  end.

Section Matcher.
Context {R : Type}.

(** A continuation receives the remaining input, the position reached and
    the current value of capture group 1. *)
Definition Cont : Type := list ascii → nat → option string → option R.

Fixpoint star_set (p : ascii → bool) (s : list ascii) (pos : nat)
    (cap : option string) (k : Cont) : option R :=
  match s with
  | c :: s' =>
      if p c then
        match star_set p s' (S pos) cap k with
        | Some x => Some x
        | None => k s pos cap
        end
      else k s pos cap
  | [] => k s pos cap
  end.

Fixpoint rmatch (r : Regex) (s : list ascii) (pos : nat)
    (cap : option string) (k : Cont) {struct r} : option R :=
  match r with
  | RChar c =>
      match s with
      | c' :: s' => if decide (c = c') then k s' (S pos) cap else None
      | [] => None
      end
  | RSet p =>
      match s with
      | c' :: s' => if p c' then k s' (S pos) cap else None
      | [] => None
      end
  | RSeq r1 r2 =>
      rmatch r1 s pos cap (λ s' pos' cap', rmatch r2 s' pos' cap' k)
  | RAlt r1 r2 =>
      match rmatch r1 s pos cap k with
      | Some x => Some x
      | None => rmatch r2 s pos cap k
      end
  | RStarSet p => star_set p s pos cap k
  | RRepeat n r' =>
      (fix rep (n : nat) (k : Cont) : Cont :=
         match n with
         | O => k
         | S n' => λ s pos cap, rmatch r' s pos cap (rep n' k)
         end) n k s pos cap
  | RGroup r' =>
      rmatch r' s pos cap
        (λ s' pos' _, k s' pos' (Some (unchars (take (pos' - pos)%nat s))))
  | RBol => if decide (pos = 0%nat) then k s pos cap else None
  | REol => match s with [] => k s pos cap | _ => None end
  end.
End Matcher.

(** The result of a successful match: the value of group 1. *)
Fixpoint search_from (r : Regex) (s : list ascii) (pos : nat)
    : option (option string) :=
  match rmatch r s pos None (λ _ _ cap, Some cap) with
  | Some m => Some m
  | None =>
      match s with
      | [] => None
      | _ :: s' => search_from r s' (S pos)
      end
  end.

(** [s.match(r)] for a regex without the [g] flag; [None] is [null]. *)
Definition String_match (s : string) (r : Regex) : option (option string) :=
  search_from r (chars s) 0.

(** [r.test(v)] *)
Definition RegExp_test (r : Regex) (v : JsVal) : bool :=
  bool_decide (is_Some (String_match (ToString v) r)).

(** A literal run of characters (the empty run matches the empty string). *)
Fixpoint RLit (l : list ascii) : Regex :=
  match l with
  | [] => RRepeat 0 RBol
  | [c] => RChar c
  | c :: l' => RSeq (RChar c) (RLit l')
  end.

Definition lit (s : string) : Regex := RLit (chars s).

(** [[A-Z0-9]] *)
Definition upper_or_digit (c : ascii) : bool :=
  let n := nat_of_ascii c in
  ((65 <=? n)%nat && (n <=? 90)%nat) || ((48 <=? n)%nat && (n <=? 57)%nat).

(** [.]: any character but a line terminator. *)
Definition not_newline (c : ascii) : bool :=
  let n := nat_of_ascii c in
  negb ((n =? 10)%nat || (n =? 13)%nat).

(** [([A-Z0-9]{10})] *)
Definition asin_group : Regex := RGroup (RRepeat 10 (RSet upper_or_digit)).

(** ** js/book-manager.js *)

(** [isValidASIN]: [/^[A-Z0-9]{10}$/.test(asin)] *)
Definition asin_pattern : Regex :=
  RSeq RBol (RSeq (RRepeat 10 (RSet upper_or_digit)) REol).

Definition isValidASIN (asin : JsVal) : bool := RegExp_test asin_pattern asin.

(** [extractASINFromUrl]: the five patterns, tried in order. *)
Definition url_patterns : list Regex :=
  [ RSeq (lit "amazon.co.jp/dp/") asin_group;
    RSeq (lit "amazon.co.jp/")
      (RSeq (RStarSet not_newline) (RSeq (lit "/dp/") asin_group));
    RSeq (lit "amazon.com/dp/") asin_group;
    RSeq (lit "amazon.com/")
      (RSeq (RStarSet not_newline) (RSeq (lit "/dp/") asin_group));
    RSeq (RChar "/")
      (RSeq asin_group (RAlt (RChar "/") (RAlt (RChar "?") REol))) ].

(** [match[1]] of a match object: the capture, or [undefined] when the
    group took no part in the match. *)
Definition group1 (m : option string) : JsVal :=
  match m with
  | Some s => JStr s
  | None => JUndefined
  end.

Fixpoint first_match (url : string) (patterns : list Regex) : JsVal :=
  match patterns with
  | [] => JNull
  | pattern :: rest =>
      match String_match url pattern with
      | Some m => group1 m
      | None => first_match url rest
      end
  end.

Definition extractASINFromUrl (url : string) : JsVal :=
  first_match url url_patterns.

(** *** The library and its environment *)

Record Metadata : Type := {
  lastImportDate : JsVal;
  totalBooks : Z;
  manuallyAdded : Z;
  importedFromKindle : Z
}.

Record Library : Type := {
  books : list Obj;
  metadata : Metadata
}.

(** What a method of [BookManager] can read and change: [this.library], the
    browser's local storage, and the number of clock reads made so far. *)
Record World : Type := {
  library : Library;
  localStorage : gmap string string;
  clock : nat
}.

(** How a call ends: [return a] or [throw new Error(msg)]. *)
Inductive Outcome (A : Type) : Type :=
| Returned (a : A)
| Thrown (msg : string).
Arguments Returned {A} a.
Arguments Thrown {A} msg.

Definition M (A : Type) : Type := World → Outcome A * World.

Global Instance M_ret : MRet M := λ A a w, (Returned a, w).

Global Instance M_bind : MBind M := λ A B f m w,
  match m w with
  | (Returned a, w') => f a w'
  | (Thrown msg, w') => (Thrown msg, w')
  end.

Definition throw {A} (msg : string) : M A := λ w, (Thrown msg, w).

(** [try { body } catch (error) { handler }] *)
Definition try_catch {A} (body : M A) (handler : string → M A) : M A := λ w,
  match body w with
  | (Returned a, w') => (Returned a, w')
  | (Thrown msg, w') => handler msg w'
  end.

Definition get_books : M (list Obj) := λ w, (Returned (books (library w)), w).

Definition set_books (bs : list Obj) : M unit := λ w,
  (Returned (),
   {| library := {| books := bs; metadata := metadata (library w) |};
      localStorage := localStorage w;
      clock := clock w |}).

Definition get_metadata : M Metadata := λ w, (Returned (metadata (library w)), w).

Definition set_metadata (md : Metadata) : M unit := λ w,
  (Returned (),
   {| library := {| books := books (library w); metadata := md |};
      localStorage := localStorage w;
      clock := clock w |}).

(** [for (const x of xs) { acc = body(x, acc) }] *)
Fixpoint for_of {A S} (xs : list A) (acc : S) (body : A → S → M S) : M S :=
  match xs with
  | [] => mret acc
  | x :: xs' => acc' ← body x acc; for_of xs' acc' body
  end.

(** [book.asin] *)
Definition asin (book : Obj) : JsVal := get book "asin".

(** [books.filter(book => book.source === src).length] *)
Definition count_source (src : string) (bs : list Obj) : Z :=
  Z.of_nat (length (filter (λ book, get book "source" = JStr src) bs)).

Record ImportResults : Type := {
  total : nat;
  added : nat;
  updated : nat;
  skipped : nat
}.

(** [shouldUpdateBook] *)
Definition shouldUpdateBook (existingBook newBook : Obj) : bool :=
  negb (bool_decide (get existingBook "acquiredTime" = get newBook "acquiredTime"))
  || negb (bool_decide (get existingBook "readStatus" = get newBook "readStatus"))
  || negb (bool_decide (get existingBook "title" = get newBook "title"))
  || negb (bool_decide (get existingBook "productImage" = get newBook "productImage")).

(** The object literal handed to [Object.assign] by [importFromKindle]. *)
Definition kindle_fields (kindleBook : Obj) : Obj :=
  <["title" := get kindleBook "title"]>
  (<["authors" := get kindleBook "authors"]>
  (<["acquiredTime" := get kindleBook "acquiredTime"]>
  (<["readStatus" := get kindleBook "readStatus"]>
  (<["productImage" := get kindleBook "productImage"]> ∅)))).

(** [{...book, source: 'kindle_import', addedDate: t}] *)
Definition kindle_record (book : Obj) (t : Z) : Obj :=
  <["addedDate" := JNum t]> (<["source" := JStr "kindle_import"]> book).

Record SelectedResults : Type := {
  sel_success : bool;
  sel_total : nat;
  sel_added : nat;
  sel_updated : nat;
  sel_skipped : nat;
  imported : list Obj;
  duplicates : list Obj;
  errors : list Obj
}.

(** The entries [importSelectedBooks] reports for a book it did not add. *)
Definition duplicate_entry (book : Obj) : Obj :=
  <["title" := get book "title"]>
  (<["asin" := get book "asin"]>
  (<["reason" := JStr "既に存在"]> ∅)).

Definition error_entry (book : Obj) (message : string) : Obj :=
  <["title" := get book "title"]>
  (<["asin" := get book "asin"]>
  (<["reason" := JStr message]> ∅)).

(** The cover address [addBookManually] falls back to. *)
Definition default_image (a : JsVal) : string :=
  "https://images-na.ssl-images-amazon.com/images/P/" +:+ ToString a +:+ ".01.L.jpg".

(** The part of an exported [library.json] that [BookManager.initialize]
    reads back: the export date, the books keyed by asin, and the book count
    of [stats].  (The bookshelves, settings and book order travel in the same
    file and are read by the presentation layer only.) *)
Record ExportData : Type := {
  exportDate : JsVal;
  export_books : gmap string Obj;
  stats_totalBooks : Z;
  stats_notesCount : Z;
  version : JsVal
}.

(** The record [initialize] builds for the property [key] of
    [libraryData.books].  The source recovers the key of [book] by looking
    for the property whose value is identical ([===]) to it; the values of a
    parsed file are distinct objects, so that is the key it was read under. *)
Definition loaded_record (key : string) (book : Obj) : Obj :=
  <["title" := get book "title"]>
  (<["authors" := get book "authors"]>
  (<["acquiredTime" := get book "acquiredTime"]>
  (<["readStatus" := get book "readStatus"]>
  (<["asin" := JStr key]>
  (<["productImage" := get book "productImage"]>
  (<["source" := get book "source"]>
  (<["addedDate" := get book "addedDate"]> ∅))))))).

Definition empty_library : Library :=
  {| books := [];
     metadata := {| lastImportDate := JNull;
                    totalBooks := 0;
                    manuallyAdded := 0;
                    importedFromKindle := 0 |} |}.

(** [Object.values(libraryData.books).map(...)].  The order in which a map
    lists its entries stands for the property order of the object. *)
Definition loaded_books (libraryData : ExportData) : list Obj :=
  (λ kb, loaded_record kb.1 kb.2) <$> map_to_list (export_books libraryData).

Definition set_library (lib : Library) : M unit := λ w,
  (Returned (),
   {| library := lib; localStorage := localStorage w; clock := clock w |}).

(** [initialize], after local storage held no usable copy: [file] is the
    parsed [data/library.json], or [None] when fetching or parsing it
    failed. *)
Definition initialize_from_file (file : option ExportData) : M unit :=
  match file with
  | Some libraryData =>
      set_library
        {| books := loaded_books libraryData;
           metadata := {| lastImportDate := exportDate libraryData;
                          totalBooks := stats_totalBooks libraryData;
                          manuallyAdded := 0;
                          importedFromKindle := stats_totalBooks libraryData |} |}
  | None => set_library empty_library
  end.

Section Store.
(** [Date.now()] at the n-th read, and [JSON.stringify] on a library. *)
Variable now : nat → Z.
Variable JSON_stringify : Library → string.

Definition Date_now : M Z := λ w,
  (Returned (now (clock w)),
   {| library := library w;
      localStorage := localStorage w;
      clock := S (clock w) |}).

(** [saveLibrary] *)
Definition saveLibrary : M Library := λ w,
  (Returned (library w),
   {| library := library w;
      localStorage :=
        <["virtualBookshelf_library" := JSON_stringify (library w)]>
          (localStorage w);
      clock := clock w |}).

(** The body of the loop of [importFromKindle]. *)
Definition import_one (kindleBook : Obj) (importResults : ImportResults)
    : M ImportResults :=
  bs ← get_books;
  match list_find (λ book, asin book = asin kindleBook) bs with
  | Some (i, existingBook) =>
      if shouldUpdateBook existingBook kindleBook then
        set_books
          (<[i := Object_assign existingBook (kindle_fields kindleBook)]> bs);;
        mret {| total := total importResults;
                added := added importResults;
                updated := S (updated importResults);
                skipped := skipped importResults |}
      else
        mret {| total := total importResults;
                added := added importResults;
                updated := updated importResults;
                skipped := S (skipped importResults) |}
  | None =>
      t ← Date_now;
      set_books (bs ++ [kindle_record kindleBook t]);;
      mret {| total := total importResults;
              added := S (added importResults);
              updated := updated importResults;
              skipped := skipped importResults |}
  end.

(** [importFromKindle], from the parsed list of records on. *)
Definition importFromKindle (kindleBooks : list Obj) : M ImportResults :=
  importResults ←
    for_of kindleBooks
      {| total := length kindleBooks; added := 0; updated := 0; skipped := 0 |}
      import_one;
  t ← Date_now;
  bs ← get_books;
  md ← get_metadata;
  set_metadata
    {| lastImportDate := JNum t;
       totalBooks := Z.of_nat (length bs);
       manuallyAdded := manuallyAdded md;
       importedFromKindle := count_source "kindle_import" bs |};;
  saveLibrary;;
  mret importResults.

(** [importSelectedBooks].  [existingASINs] is computed once, before the
    loop.  The accumulator holds [importedBooks], [duplicateBooks] and
    [errorBooks]. *)
Definition select_one (existingASINs : gset JsVal) (book : Obj)
    (acc : list Obj * list Obj * list Obj) : M (list Obj * list Obj * list Obj) :=
  let '(importedBooks, duplicateBooks, errorBooks) := acc in
  try_catch
    (if bool_decide (asin book ∈ existingASINs) then
       mret (importedBooks,
             duplicateBooks ++ [duplicate_entry book],
             errorBooks)
     else
       t ← Date_now;
       let bookToAdd := kindle_record book t in
       bs ← get_books;
       set_books (bs ++ [bookToAdd]);;
       mret (importedBooks ++ [bookToAdd], duplicateBooks, errorBooks))
    (λ msg,
       mret (importedBooks, duplicateBooks,
             errorBooks ++ [error_entry book msg])).

Definition importSelectedBooks (selectedBooks : list Obj) : M SelectedResults :=
  bs0 ← get_books;
  let existingASINs : gset JsVal := list_to_set (asin <$> bs0) in
  '(importedBooks, duplicateBooks, errorBooks) ←
    for_of selectedBooks ([], [], []) (select_one existingASINs);
  bs ← get_books;
  t ← Date_now;
  set_metadata
    {| lastImportDate := JNum t;
       totalBooks := Z.of_nat (length bs);
       manuallyAdded := count_source "manual_add" bs;
       importedFromKindle := count_source "kindle_import" bs |};;
  saveLibrary;;
  mret {| sel_success := true;
          sel_total := length selectedBooks;
          sel_added := length importedBooks;
          sel_updated := 0;
          sel_skipped := (length duplicateBooks + length errorBooks)%nat;
          imported := importedBooks;
          duplicates := duplicateBooks;
          errors := errorBooks |}.

(** [x || Date.now()]: the clock is read only when [x] is falsy. *)
Definition or_now (x : JsVal) : M JsVal :=
  if truthy x then mret x else t ← Date_now; mret (JNum t).

(** [addBookManually] *)
Definition addBookManually (bookData : Obj) : M Obj :=
  let a := get bookData "asin" in
  if negb (truthy a) || negb (isValidASIN a) then
    throw "有効なASINが必要です"
  else
    bs ← get_books;
    match list_find (λ book, asin book = a) bs with
    | Some _ => throw "この本は既に蔵書に追加されています"
    | None =>
        acquiredTime ← or_now (get bookData "acquiredTime");
        addedDate ← Date_now;
        let newBook : Obj :=
          <["asin" := a]>
          (<["title" := js_or (get bookData "title") (JStr "タイトル未設定")]>
          (<["authors" := js_or (get bookData "authors") (JStr "著者未設定")]>
          (<["acquiredTime" := acquiredTime]>
          (<["readStatus" := js_or (get bookData "readStatus") (JStr "UNKNOWN")]>
          (<["productImage" :=
               js_or (get bookData "productImage") (JStr (default_image a))]>
          (<["source" := JStr "manual_add"]>
          (<["addedDate" := JNum addedDate]> ∅))))))) in
        set_books (bs ++ [newBook]);;
        bs' ← get_books;
        md ← get_metadata;
        set_metadata
          {| lastImportDate := lastImportDate md;
             totalBooks := Z.of_nat (length bs');
             manuallyAdded := count_source "manual_add" bs';
             importedFromKindle := importedFromKindle md |};;
        saveLibrary;;
        mret newBook
    end.

(** [deleteBook] *)
Definition deleteBook (a : JsVal) (hardDelete : bool) : M bool :=
  bs ← get_books;
  match list_find (λ book, asin book = a) bs with
  | None => throw "指定された書籍が見つかりません"
  | Some (bookIndex, _) =>
      (if hardDelete then
         set_books (delete bookIndex bs);;
         bs' ← get_books;
         md ← get_metadata;
         set_metadata
           {| lastImportDate := lastImportDate md;
              totalBooks := Z.of_nat (length bs');
              manuallyAdded := count_source "manual_add" bs';
              importedFromKindle := count_source "kindle_import" bs' |}
       else mret ());;
      saveLibrary;;
      mret true
  end.

(** [clearAllBooks] *)
Definition clearAllBooks : M bool :=
  set_books [];;
  set_metadata
    {| lastImportDate := JNull;
       totalBooks := 0;
       manuallyAdded := 0;
       importedFromKindle := 0 |};;
  saveLibrary;;
  mret true.

(** [updateBook].  The class body declares the method twice; the later
    declaration is the one a call reaches, and it is the one modelled. *)
Definition updateBook (a : JsVal) (updates : Obj) : M Obj :=
  bs ← get_books;
  match list_find (λ book, asin book = a) bs with
  | None => throw "指定された書籍が見つかりません"
  | Some (i, book) =>
      let book' := Object_assign book updates in
      set_books (<[i := book']> bs);;
      saveLibrary;;
      mret book'
  end.

(** [initialize]: the copy in local storage wins when it is present and
    parses ([JSON_parse] gives [None] when [JSON.parse] throws). *)
Variable JSON_parse : string → option Library.

Definition initialize (file : option ExportData) : M unit := λ w,
  match localStorage w !! "virtualBookshelf_library" with
  | Some savedLibrary =>
      if truthy (JStr savedLibrary) then
        match JSON_parse savedLibrary with
        | Some lib => set_library lib w
        | None => initialize_from_file file w
        end
      else initialize_from_file file w
  | None => initialize_from_file file w
  end.
End Store.

(** ** js/bookshelf.js *)

(** *** User annotations *)

Record Note : Type := {
  memo : JsVal;
  rating : JsVal
}.

(** [if (!notes[asin]) notes[asin] = { memo: '', rating: 0 }] *)
Definition ensure_note (a : JsVal) (notes : gmap string Note) : gmap string Note :=
  match notes !! ToString a with
  | Some _ => notes
  | None => <[ToString a := {| memo := JStr ""; rating := JNum 0 |}]> notes
  end.

(** [saveNote], on [this.userData.notes] *)
Definition saveNote (a : JsVal) (m : JsVal) (notes : gmap string Note)
    : gmap string Note :=
  alter (λ n, {| memo := m; rating := rating n |}) (ToString a) (ensure_note a notes).

(** [saveRating], on [this.userData.notes] *)
Definition saveRating (a : JsVal) (r : JsVal) (notes : gmap string Note)
    : gmap string Note :=
  alter (λ n, {| memo := memo n; rating := r |}) (ToString a) (ensure_note a notes).

(** *** Custom order *)

(** [Array.prototype.sort(cmp)]: a stable sort; [cmp x y <= 0] keeps [x]
    before [y].  The language fixes the result only up to stability and
    sortedness; for a comparator that orders by a key, as the one below does,
    that determines the list. *)
Fixpoint sort_insert {A} (cmp : A → A → Z) (x : A) (l : list A) : list A :=
  match l with
  | [] => [x]
  | y :: l' => if cmp x y <=? 0 then x :: y :: l' else y :: sort_insert cmp x l'
  end.

Definition Array_sort {A} (cmp : A → A → Z) (l : list A) : list A :=
  foldr (sort_insert cmp) [] l.

(** The comparator of [renderStandardView]. *)
Definition custom_compare (customOrder : list JsVal) (a b : Obj) : Z :=
  let aIndex := indexOf customOrder (asin a) in
  let bIndex := indexOf customOrder (asin b) in
  if (aIndex =? -1) && (bIndex =? -1) then 0
  else if aIndex =? -1 then 1
  else if bIndex =? -1 then -1
  else aIndex - bIndex.

(** The state of the presentation layer the ordering code touches:
    [userData.bookOrder] (absent, or a map from bookshelf id to key list),
    [filteredBooks] and [sortOrder]. *)
Record App : Type := {
  bookOrder : option (gmap string (list JsVal));
  filteredBooks : list Obj;
  sortOrder : string
}.

(** [booksToRender] in [renderStandardView] *)
Definition booksToRender (app : App) (currentBookshelfId : string) : list Obj :=
  if bool_decide (sortOrder app = "custom") then
    match bookOrder app with
    | Some orders =>
        match orders !! currentBookshelfId with
        | Some customOrder =>
            Array_sort (custom_compare customOrder) (filteredBooks app)
        | None => filteredBooks app
        end
    | None => filteredBooks app
    end
  else filteredBooks app.

(** [a.splice(i, 1)] and [a.splice(i, 0, x)] for an index in range. *)
Definition splice_out (i : nat) (a : list JsVal) : list JsVal := delete i a.

Definition splice_in (i : nat) (x : JsVal) (a : list JsVal) : list JsVal :=
  take i a ++ x :: drop i a.

(** What [reorderBooks] does to the key list of the current bookshelf. *)
Definition reorder_list (stored : list JsVal) (filtered : list Obj)
    (draggedASIN targetASIN : JsVal) : list JsVal :=
  let bookOrder :=
    if bool_decide (length stored = 0%nat) then asin <$> filtered else stored in
  let bookOrder :=
    if includes bookOrder draggedASIN then bookOrder
    else bookOrder ++ [draggedASIN] in
  let draggedIndex := indexOf bookOrder draggedASIN in
  let bookOrder :=
    if draggedIndex =? -1 then bookOrder
    else splice_out (Z.to_nat draggedIndex) bookOrder in
  let targetIndex := indexOf bookOrder targetASIN in
  if targetIndex =? -1 then bookOrder ++ [draggedASIN]
  else splice_in (Z.to_nat targetIndex) draggedASIN bookOrder.

(** [reorderBooks] *)
Definition reorderBooks (currentBookshelfId : string)
    (draggedASIN targetASIN : JsVal) (app : App) : App :=
  let orders := default ∅ (bookOrder app) in
  let stored := default [] (orders !! currentBookshelfId) in
  {| bookOrder :=
       Some (<[currentBookshelfId :=
                 reorder_list stored (filteredBooks app) draggedASIN targetASIN]>
               orders);
     filteredBooks := filteredBooks app;
     sortOrder := "custom" |}.

(** *** Export *)

Section UnifiedExport.
Variable now : nat → Z.
(** [new Date(t).toISOString()] *)
Variable toISOString : Z → string.

(** [notes?.[asin]?.memo || ''] and [notes?.[asin]?.rating || 0] *)
Definition note_memo (notes : gmap string Note) (a : JsVal) : JsVal :=
  js_or (from_option memo JUndefined (notes !! ToString a)) (JStr "").

Definition note_rating (notes : gmap string Note) (a : JsVal) : JsVal :=
  js_or (from_option rating JUndefined (notes !! ToString a)) (JNum 0).

(** The object stored under [books[asin]]. *)
Definition export_entry (notes : gmap string Note) (book : Obj)
    (acquiredTime addedDate : JsVal) : Obj :=
  <["title" := js_or (get book "title") (JStr "")]>
  (<["authors" := js_or (get book "authors") (JStr "")]>
  (<["acquiredTime" := acquiredTime]>
  (<["readStatus" := js_or (get book "readStatus") (JStr "UNREAD")]>
  (<["productImage" := js_or (get book "productImage") (JStr "")]>
  (<["source" := js_or (get book "source") (JStr "unknown")]>
  (<["addedDate" := addedDate]>
  (<["memo" := note_memo notes (asin book)]>
  (<["rating" := note_rating notes (asin book)]> ∅)))))))).

(** The body of the [forEach] of [exportUnifiedData]: [books[asin] = {...}]
    for a book with a truthy asin.  [books] is a plain object, and its
    property ['__proto__'] is the accessor it inherits: assigning the entry
    to it replaces the prototype of [books] and gives [books] no property of
    its own, so that neither [Object.keys] nor [JSON.stringify] sees the
    entry.  The entry is built, clock reads included, before it is
    assigned. *)
Definition export_one (notes : gmap string Note) (book : Obj)
    (acc : gmap string Obj) : M (gmap string Obj) :=
  let a := asin book in
  if truthy a then
    acquiredTime ← or_now now (get book "acquiredTime");
    addedDate ← or_now now (get book "addedDate");
    if bool_decide (ToString a = "__proto__") then mret acc
    else mret (<[ToString a := export_entry notes book acquiredTime addedDate]> acc)
  else mret acc.

(** [exportUnifiedData], up to the object that is serialized.  [this.books]
    is the array [getAllBooks()] returned, the library's own. *)
Definition exportUnifiedData (notes : gmap string Note) : M ExportData :=
  t ← Date_now now;
  bs ← get_books;
  exported ← for_of bs ∅ (export_one notes);
  mret {| exportDate := JStr (toISOString t);
          export_books := exported;
          stats_totalBooks := Z.of_nat (size exported);
          stats_notesCount := Z.of_nat (size notes);
          version := JStr "2.0" |}.

(** Export, then start again from the exported file with an empty local
    storage: the serialized text parses back to the object that was
    serialized, whose values are strings and numbers. *)
Definition export_then_load (notes : gmap string Note) : M unit :=
  libraryData ← exportUnifiedData notes;
  initialize_from_file (Some libraryData).
End UnifiedExport.

(** The eight fields of a book record. *)
Definition field_names : list string :=
  ["asin"; "title"; "authors"; "acquiredTime"; "readStatus"; "productImage";
   "source"; "addedDate"].

Definition record_fields (book : Obj) : list JsVal := get book <$> field_names.

(** * The vocabulary of the properties *)

(** ** Matching *)

(** Every capture group of [r] is [([A-Z0-9]{10})]. *)
Fixpoint asin_groups_only (r : Regex) : Prop :=
  match r with
  | RGroup r' => r' = RRepeat 10 (RSet upper_or_digit)
  | RSeq r1 r2 | RAlt r1 r2 => asin_groups_only r1 ∧ asin_groups_only r2
  | RRepeat _ r' => asin_groups_only r'
  | _ => True
  end.

(** Every match of [r] passes through a capture group. *)
Fixpoint captures (r : Regex) : bool :=
  match r with
  | RGroup _ => true
  | RSeq r1 r2 => captures r1 || captures r2
  | RAlt r1 r2 => captures r1 && captures r2
  | _ => false
  end.

Definition valid_capture (cap : option string) : Prop :=
  ∃ v, cap = Some v ∧ isValidASIN (JStr v) = true.

(** ** The record store *)

(** The keys of a list of books, in order. *)
Definition asins (bs : list Obj) : list JsVal := asin <$> bs.

(** The three reasons [addBookManually] has to refuse an input. *)
Definition asin_refused (bookData : Obj) (bs : list Obj) : Prop :=
  get bookData "asin" = JUndefined
  ∨ isValidASIN (get bookData "asin") = false
  ∨ get bookData "asin" ∈ asins bs.

(** The copy in local storage is the serialized library. *)
Definition mirrored (JSON_stringify : Library → string) (w : World) : Prop :=
  localStorage w !! "virtualBookshelf_library" = Some (JSON_stringify (library w)).

(** *** The import loop, step by step *)

(** What one round of the loop does to the books and to the clock. *)
Definition merge_step (now : nat → Z) (kindleBook : Obj) (st : list Obj * nat)
    : list Obj * nat :=
  match list_find (λ book, asin book = asin kindleBook) st.1 with
  | Some (i, existingBook) =>
      (if shouldUpdateBook existingBook kindleBook
       then <[i := Object_assign existingBook (kindle_fields kindleBook)]> st.1
       else st.1,
       st.2)
  | None => (st.1 ++ [kindle_record kindleBook (now st.2)], S st.2)
  end.

Definition merge_all (now : nat → Z) (kindleBooks : list Obj) (st : list Obj * nat)
    : list Obj * nat :=
  foldl (λ st kindleBook, merge_step now kindleBook st) st kindleBooks.

Definition with_books (w : World) (st : list Obj * nat) : World :=
  {| library := {| books := st.1; metadata := metadata (library w) |};
     localStorage := localStorage w;
     clock := st.2 |}.

Definition books_after (now : nat → Z) (JSON_stringify : Library → string)
    (kindleBooks : list Obj) (w : World) : list Obj :=
  books (library (importFromKindle now JSON_stringify kindleBooks w).2).

(** The fields an import overwrites on a book it already knows. *)
Definition kindle_field_names : list string :=
  ["title"; "authors"; "acquiredTime"; "readStatus"; "productImage"].

(** One of the four compared fields differs. *)
Definition differs (existingBook newBook : Obj) : Prop :=
  get existingBook "acquiredTime" ≠ get newBook "acquiredTime"
  ∨ get existingBook "readStatus" ≠ get newBook "readStatus"
  ∨ get existingBook "title" ≠ get newBook "title"
  ∨ get existingBook "productImage" ≠ get newBook "productImage".

(** [book'] is [existingBook] with the five imported fields taken from
    [kindleBook] and every other field as it was. *)
Definition overwritten (existingBook kindleBook book' : Obj) : Prop :=
  ∀ k, get book' k
       = if bool_decide (k ∈ kindle_field_names) then get kindleBook k
         else get existingBook k.

(** The record with the key of [kindleBook] was already there: nothing is
    appended, and the record is overwritten exactly when a compared field
    differs. *)
Definition merged_existing (kindleBook : Obj) (bs bs' : list Obj) : Prop :=
  ∃ i existingBook,
    bs !! i = Some existingBook
    ∧ asin existingBook = asin kindleBook
    ∧ length bs' = length bs
    ∧ ((differs existingBook kindleBook
        ∧ ∃ book', overwritten existingBook kindleBook book'
                   ∧ bs' = <[i := book']> bs)
       ∨ (¬ differs existingBook kindleBook ∧ bs' = bs)).

(** The key of [kindleBook] was new: one record is appended, a copy of
    [kindleBook] with source ['kindle_import'] and a creation time. *)
Definition appended_new (kindleBook : Obj) (bs bs' : list Obj) : Prop :=
  ∃ book t,
    bs' = bs ++ [book]
    ∧ asin book = asin kindleBook
    ∧ get book "source" = JStr "kindle_import"
    ∧ get book "addedDate" = JNum t
    ∧ ∀ k, k ≠ "source" → k ≠ "addedDate" → get book k = get kindleBook k.

(** ** Samples *)

(** Sample environment for the examples: a clock that ticks from a fixed
    instant, and a serializer whose text the examples never read. *)
Definition sample_now (n : nat) : Z := 1700000000000 + Z.of_nat n.
Definition sample_stringify (lib : Library) : string := "".

Definition sample_book (a title : string) : Obj :=
  {[ "asin" := JStr a; "title" := JStr title ]}.

Definition sample_world (bs : list Obj) : World :=
  {| library := {| books := bs; metadata := metadata empty_library |};
     localStorage := ∅;
     clock := 0 |}.

(** ** Mirroring to local storage *)

(** A call that returns, and leaves in local storage the library it
    leaves in memory. *)
Definition writes {A} (JSON_stringify : Library → string)
    (r : Outcome A * World) : Prop :=
  match r.1 with
  | Returned _ => mirrored JSON_stringify r.2
  | Thrown _ => False
  end.

(** A call from [w] that throws exactly when its input is [refused], and
    then leaves [w] as it was, local storage included; otherwise it returns,
    and leaves in local storage the library it leaves in memory. *)
Definition writes_or_refuses {A} (JSON_stringify : Library → string)
    (refused : Prop) (w : World) (r : Outcome A * World) : Prop :=
  match r.1 with
  | Returned _ => ¬ refused ∧ mirrored JSON_stringify r.2
  | Thrown _ => refused ∧ r.2 = w
  end.

(** ** Ratings *)

(** An integer from 0 to 5. *)
Definition rating_in_range (v : JsVal) : Prop := ∃ n, v = JNum n ∧ 0 ≤ n ≤ 5.

Definition ratings_in_range (notes : gmap string Note) : Prop :=
  map_Forall (λ _ note, rating_in_range (rating note)) notes.

(** ** Custom order *)

(** The index of a book's asin in the custom order, and whether it has one. *)
Definition order_index (customOrder : list JsVal) (book : Obj) : Z :=
  indexOf customOrder (asin book).

Definition is_listed (customOrder : list JsVal) (book : Obj) : Prop :=
  asin book ∈ customOrder.

Global Instance is_listed_dec customOrder book : Decision (is_listed customOrder book).
Proof. unfold is_listed. apply _. Defined.

(** ** Reordering *)

(** [x] occurs at most once in [l]. *)
Definition at_most_once (x : JsVal) (l : list JsVal) : Prop :=
  (length (filter (λ y, y = x) l) ≤ 1)%nat.

(** ** Export and import *)

(** A field the export writes back as it is: a truthy value, or the default
    itself. *)
Definition survives (v d : JsVal) : Prop := truthy v = true ∨ v = d.

(** A book the export writes out in full: for asin a non-empty string
    other than ['__proto__'], and seven fields that are truthy (an empty
    title, authors or cover address is written out too). *)
Definition kept_by_export (book : Obj) : Prop :=
  (∃ s, asin book = JStr s ∧ s ≠ "" ∧ s ≠ "__proto__")
  ∧ survives (get book "title") (JStr "")
  ∧ survives (get book "authors") (JStr "")
  ∧ truthy (get book "acquiredTime") = true
  ∧ truthy (get book "readStatus") = true
  ∧ survives (get book "productImage") (JStr "")
  ∧ truthy (get book "source") = true
  ∧ truthy (get book "addedDate") = true.

(** The property and the object the export stores for a book. *)
Definition export_pair (notes : gmap string Note) (book : Obj) : string * Obj :=
  (ToString (asin book),
   export_entry notes book (get book "acquiredTime") (get book "addedDate")).

(** A complete record, and a fixed export date. *)
Definition sample_full_book (a : string) : Obj :=
  {[ "asin" := JStr a; "title" := JStr "Title"; "authors" := JStr "Author";
     "acquiredTime" := JNum 1600000000000; "readStatus" := JStr "READ";
     "productImage" := JStr ""; "source" := JStr "kindle_import";
     "addedDate" := JNum 1600000000001 ]}.

Definition sample_toISOString (t : Z) : string := "2023-11-14T22:13:20.000Z".

(** * Properties *)

(** ** The model at work *)

Example isValidASIN_ok : isValidASIN (JStr "B00TEST001") = true.
Proof. vm_compute. reflexivity. Qed.

Example isValidASIN_short : isValidASIN (JStr "B00TEST01") = false.
Proof. vm_compute. reflexivity. Qed.

Example isValidASIN_number : isValidASIN (JNum 1234567890) = true.
Proof. vm_compute. reflexivity. Qed.

Example extract_dp :
  extractASINFromUrl "https://www.amazon.co.jp/dp/B00TEST001?tag=x"
  = JStr "B00TEST001".
Proof. vm_compute. reflexivity. Qed.

Example extract_gp :
  extractASINFromUrl "https://www.amazon.co.jp/some-title/dp/4003101014/ref=sr"
  = JStr "4003101014".
Proof. vm_compute. reflexivity. Qed.

Example extract_none : extractASINFromUrl "https://example.org/" = JNull.
Proof. vm_compute. reflexivity. Qed.

Example reorder_move :
  reorder_list [JStr "a"; JStr "b"; JStr "c"; JStr "d"] [] (JStr "d") (JStr "b")
  = [JStr "a"; JStr "d"; JStr "b"; JStr "c"].
Proof. vm_compute. reflexivity. Qed.

Example sort_custom :
  asin <$> Array_sort (custom_compare [JStr "c"; JStr "a"])
    [ {["asin" := JStr "x"]}; {["asin" := JStr "a"]};
      {["asin" := JStr "y"]}; {["asin" := JStr "c"]} ]
  = [JStr "c"; JStr "a"; JStr "x"; JStr "y"].
Proof. vm_compute. reflexivity. Qed.

(** ** The matcher *)

Lemma chars_unchars l : chars (unchars l) = l.
Proof. induction l as [|c l IH]; simpl; [done | by rewrite IH]. Qed.

Lemma rmatch_repeat_S {R} n r s pos cap (k : @Cont R) :
  rmatch (RRepeat (S n) r) s pos cap k
  = rmatch r s pos cap (λ s' pos' cap', rmatch (RRepeat n r) s' pos' cap' k).
Proof. reflexivity. Qed.

Lemma rmatch_set_nil {R} p pos cap (k : @Cont R) :
  rmatch (RSet p) [] pos cap k = None.
Proof. reflexivity. Qed.

Lemma rmatch_set_cons {R} p c s pos cap (k : @Cont R) :
  rmatch (RSet p) (c :: s) pos cap k = if p c then k s (S pos) cap else None.
Proof. reflexivity. Qed.

Lemma rmatch_seq {R} r1 r2 s pos cap (k : @Cont R) :
  rmatch (RSeq r1 r2) s pos cap k
  = rmatch r1 s pos cap (λ s' pos' cap', rmatch r2 s' pos' cap' k).
Proof. reflexivity. Qed.

Lemma rmatch_bol_0 {R} s cap (k : @Cont R) : rmatch RBol s 0 cap k = k s 0%nat cap.
Proof. reflexivity. Qed.

Lemma rmatch_eol {R} s pos cap (k : @Cont R) :
  rmatch REol s pos cap k = match s with [] => k s pos cap | _ :: _ => None end.
Proof. reflexivity. Qed.

Lemma search_from_unfold r s pos :
  search_from r s pos
  = match rmatch r s pos None (λ _ _ cap, Some cap) with
    | Some m => Some m
    | None =>
        match s with
        | [] => None
        | _ :: s' => search_from r s' (S pos)
        end
    end.
Proof. by destruct s. Qed.

(** [p{n}] on a character set consumes exactly [n] characters of the set. *)
Lemma rmatch_repeat_set {R} n p s pos cap (k : @Cont R) :
  rmatch (RRepeat n (RSet p)) s pos cap k
  = if bool_decide (n ≤ length s)%nat && forallb p (take n s)
    then k (drop n s) (pos + n)%nat cap
    else None.
Proof.
  revert s pos. induction n as [|n IH]; intros s pos.
  - simpl. by rewrite drop_0, Nat.add_0_r.
  - rewrite rmatch_repeat_S. destruct s as [|c s].
    + rewrite rmatch_set_nil. by rewrite bool_decide_eq_false_2 by (simpl; lia).
    + rewrite rmatch_set_cons.
      simpl take. simpl forallb. simpl drop. destruct (p c) eqn:Hc.
      * rewrite IH. replace (S pos + n)%nat with (pos + S n)%nat by lia.
        simpl length.
        destruct (bool_decide (n ≤ length s)%nat) eqn:Hn.
        -- apply bool_decide_eq_true in Hn.
           by rewrite (bool_decide_eq_true_2 (S n ≤ S (length s))%nat) by lia.
        -- apply bool_decide_eq_false in Hn.
           by rewrite (bool_decide_eq_false_2 (S n ≤ S (length s))%nat) by lia.
      * by rewrite andb_false_r.
Qed.

Lemma search_from_bol r s pos :
  (0 < pos)%nat → search_from (RSeq RBol r) s pos = None.
Proof.
  revert pos. induction s as [|c s IH]; intros pos Hpos; simpl;
    destruct (decide (pos = 0%nat)); try lia; auto with lia.
Qed.

(** [isValidASIN] accepts exactly the strings of ten characters of
    [[A-Z0-9]]. *)
Lemma isValidASIN_spec v :
  isValidASIN v = true ↔
  length (chars (ToString v)) = 10%nat ∧
  Forall (λ c, upper_or_digit c = true) (chars (ToString v)).
Proof.
  unfold isValidASIN, RegExp_test, String_match.
  generalize (chars (ToString v)). intros l.
  rewrite bool_decide_eq_true.
  assert (search_from asin_pattern l 0
          = if bool_decide (10 ≤ length l)%nat && forallb upper_or_digit (take 10 l)
            then match drop 10 l with [] => Some None | _ => None end
            else None) as ->.
  { unfold asin_pattern. rewrite search_from_unfold.
    rewrite rmatch_seq, rmatch_bol_0, rmatch_seq, rmatch_repeat_set.
    destruct (bool_decide (10 ≤ length l)%nat && forallb upper_or_digit (take 10 l)).
    - rewrite rmatch_eol. destruct (drop 10 l); [done|].
      destruct l; [done|]. by rewrite search_from_bol by lia.
    - destruct l; [done|]. by rewrite search_from_bol by lia. }
  destruct (bool_decide (10 ≤ length l)%nat) eqn:Hlen; simpl.
  - apply bool_decide_eq_true in Hlen.
    destruct (forallb upper_or_digit (take 10 l)) eqn:Hall.
    + destruct (drop 10 l) eqn:Hdrop.
      * assert (length l = 10%nat) as Hl.
        { apply (f_equal length) in Hdrop. rewrite length_drop in Hdrop.
          simpl in Hdrop. lia. }
        split; [|by eauto]. intros _. split; [done|].
        rewrite take_ge in Hall by lia.
        apply Forall_forall. intros c Hc.
        rewrite forallb_forall in Hall. apply Hall. by apply list_elem_of_In.
      * split; [by intros [? ?]|]. intros [Hl _].
        apply (f_equal length) in Hdrop. rewrite length_drop in Hdrop.
        simpl in Hdrop. lia.
    + split; [by intros [? ?]|]. intros [Hl Hf]. exfalso.
      rewrite take_ge in Hall by lia.
      assert (forallb upper_or_digit l = true); [|congruence].
      apply forallb_forall. intros c Hc. rewrite Forall_forall in Hf.
      apply Hf. by apply list_elem_of_In.
  - apply bool_decide_eq_false in Hlen.
    split; [by intros [? ?]|]. intros [Hl _]. lia.
Qed.

Lemma star_set_sound {R} p s pos cap (k : @Cont R) x :
  star_set p s pos cap k = Some x → ∃ s' pos', k s' pos' cap = Some x.
Proof.
  revert pos. induction s as [|c s IH]; intros pos; simpl; [by eauto|].
  destruct (p c); [|by eauto].
  destruct (star_set p s (S pos) cap k) eqn:Hstar; [|by eauto].
  intros [= ->]. eauto.
Qed.

Lemma rmatch_sound {R} r :
  asin_groups_only r →
  ∀ s pos cap (k : @Cont R) x,
    rmatch r s pos cap k = Some x →
    ∃ s' pos' cap',
      k s' pos' cap' = Some x ∧
      (cap' = cap ∨ valid_capture cap') ∧
      (captures r = true → valid_capture cap').
Proof.
  induction r as [c|p|r1 IH1 r2 IH2|r1 IH1 r2 IH2|p|n r IH|r IH| |];
    intros Hgroups s pos cap k x Hmatch.
  - destruct s as [|c' s]; simpl in Hmatch; [done|].
    destruct (decide (c = c')); [|done]. naive_solver.
  - destruct s as [|c' s]; simpl in Hmatch; [done|].
    destruct (p c'); [|done]. naive_solver.
  - destruct Hgroups as [Hg1 Hg2]. rewrite rmatch_seq in Hmatch.
    apply (IH1 Hg1) in Hmatch as (s1 & pos1 & cap1 & Hmatch & Hcap1 & Hval1).
    apply (IH2 Hg2) in Hmatch as (s2 & pos2 & cap2 & Hk & Hcap2 & Hval2).
    exists s2, pos2, cap2. split; [done|]. split.
    + destruct Hcap2 as [->|?]; [done | by right].
    + simpl. intros [H1|H2]%orb_true_iff; [|by auto].
      destruct Hcap2 as [->|?]; auto.
  - destruct Hgroups as [Hg1 Hg2]. simpl in Hmatch.
    destruct (rmatch r1 s pos cap k) eqn:Hfirst.
    + injection Hmatch as ->.
      apply (IH1 Hg1) in Hfirst as (s1 & pos1 & cap1 & ? & ? & Hval).
      exists s1, pos1, cap1. split_and!; [done..|].
      simpl. intros [? ?]%andb_true_iff. auto.
    + apply (IH2 Hg2) in Hmatch as (s2 & pos2 & cap2 & ? & ? & Hval).
      exists s2, pos2, cap2. split_and!; [done..|].
      simpl. intros [? ?]%andb_true_iff. auto.
  - simpl in Hmatch. apply star_set_sound in Hmatch as (s' & pos' & ?).
    exists s', pos', cap. naive_solver.
  - simpl in Hgroups. revert s pos cap Hmatch.
    induction n as [|n IHn]; intros s pos cap Hmatch.
    + simpl in Hmatch. exists s, pos, cap. naive_solver.
    + rewrite rmatch_repeat_S in Hmatch.
      apply (IH Hgroups) in Hmatch as (s1 & pos1 & cap1 & Hmatch & Hcap1 & _).
      apply IHn in Hmatch as (s2 & pos2 & cap2 & Hk & Hcap2 & _).
      exists s2, pos2, cap2. split; [done|]. split; [|done].
      destruct Hcap2 as [->|?]; [done | by right].
  - simpl in Hgroups. subst r.
    change (rmatch (RRepeat 10 (RSet upper_or_digit)) s pos cap
              (λ s' pos' _, k s' pos' (Some (unchars (take (pos' - pos) s))))
            = Some x) in Hmatch.
    rewrite rmatch_repeat_set in Hmatch.
    destruct (bool_decide (10 ≤ length s)%nat) eqn:Hlen; [|done].
    destruct (forallb upper_or_digit (take 10 s)) eqn:Hall; [|done].
    simpl andb in Hmatch. cbv beta in Hmatch.
    apply bool_decide_eq_true in Hlen.
    replace (pos + 10 - pos)%nat with 10%nat in Hmatch by lia.
    assert (valid_capture (Some (unchars (take 10 s)))) as Hvalid.
    { eexists. split; [done|]. apply isValidASIN_spec. simpl ToString.
      rewrite chars_unchars. split; [rewrite length_take; lia|].
      apply Forall_forall. intros c Hc. rewrite forallb_forall in Hall.
      apply Hall. by apply list_elem_of_In. }
    eauto 10.
  - simpl in Hmatch. destruct (decide (pos = 0%nat)); [|done]. naive_solver.
  - simpl in Hmatch. destruct s; [|done]. naive_solver.
Qed.

Lemma search_from_sound r s pos m :
  asin_groups_only r → captures r = true →
  search_from r s pos = Some m → valid_capture m.
Proof.
  intros Hgroups Hcaptures. revert pos.
  induction s as [|c s IH]; intros pos; rewrite search_from_unfold;
    destruct (rmatch r _ pos None (λ _ _ cap, Some cap)) eqn:Hmatch;
    try done; try (by apply IH); intros [= ->];
    apply (rmatch_sound r Hgroups) in Hmatch as (? & ? & cap' & [= ->] & _ & Hval);
    auto.
Qed.

Lemma asin_groups_only_lit l : asin_groups_only (RLit l).
Proof.
  induction l as [|c [|c' l] IH]; simpl; done.
Qed.

Lemma first_match_sound url patterns :
  Forall (λ r, asin_groups_only r ∧ captures r = true) patterns →
  first_match url patterns = JNull ∨
  ∃ s, first_match url patterns = JStr s ∧ isValidASIN (JStr s) = true.
Proof.
  induction 1 as [|r patterns [Hgroups Hcaptures] _ IH]; simpl; [by left|].
  destruct (String_match url r) as [m|] eqn:Hm; [|done].
  apply search_from_sound in Hm as (s & -> & ?); [|done..].
  right. by exists s.
Qed.

Lemma url_patterns_capture :
  Forall (λ r, asin_groups_only r ∧ captures r = true) url_patterns.
Proof.
  unfold url_patterns, lit, asin_group.
  repeat first
    [ apply Forall_nil_2
    | apply Forall_cons_2;
      [ split;
        [ cbn [asin_groups_only]; repeat split; auto using asin_groups_only_lit
        | vm_compute; reflexivity ]
      | ] ].
Qed.

(** C10. For every string [url], [extractASINFromUrl url] is [null] or a
    string that [isValidASIN] accepts, that is, a string matching
    [^[A-Z0-9]{10}$]. *)
Theorem extractASINFromUrl_valid (url : string) :
  extractASINFromUrl url = JNull ∨
  ∃ s, extractASINFromUrl url = JStr s ∧ isValidASIN (JStr s) = true.
Proof. apply first_match_sound, url_patterns_capture. Qed.

(** ** The record store *)

Lemma find_asin_None (a : JsVal) (bs : list Obj) :
  list_find (λ book, asin book = a) bs = None ↔ a ∉ asins bs.
Proof.
  rewrite list_find_None, Forall_forall. unfold asins.
  rewrite list_elem_of_fmap. split.
  - intros Hall (book & -> & Hin). by apply (Hall book).
  - intros Hnot book Hin Heq. apply Hnot. by exists book.
Qed.

Lemma find_asin_Some (a : JsVal) (bs : list Obj) i book :
  list_find (λ book, asin book = a) bs = Some (i, book) →
  bs !! i = Some book ∧ asin book = a.
Proof. rewrite list_find_Some. by intros (? & ? & _). Qed.

(** The monad's steps, for rewriting. *)
Ltac run_store :=
  cbv beta iota delta
    [mbind mret M_bind M_ret throw try_catch get_books set_books get_metadata
     set_metadata set_library saveLibrary Date_now or_now];
  cbn [fst snd library books metadata localStorage clock].

(** A falsy asin is also one the pattern rejects, unless it is missing. *)
Lemma falsy_asin_invalid (a : JsVal) :
  truthy a = false → a = JUndefined ∨ isValidASIN a = false.
Proof.
  destruct a as [| |[]|n|s]; simpl; try done; eauto.
  - rewrite negb_false_iff, Z.eqb_eq. intros ->. by right.
  - rewrite negb_false_iff, bool_decide_eq_true. intros ->. by right.
Qed.

Lemma addBookManually_run now JSON_stringify bookData w :
  (asin_refused bookData (books (library w)) ∧
   ∃ msg, addBookManually now JSON_stringify bookData w = (Thrown msg, w))
  ∨
  (¬ asin_refused bookData (books (library w)) ∧
   ∃ newBook w',
     addBookManually now JSON_stringify bookData w = (Returned newBook, w') ∧
     books (library w') = books (library w) ++ [newBook] ∧
     get newBook "source" = JStr "manual_add" ∧
     asin newBook = get bookData "asin" ∧
     mirrored JSON_stringify w').
Proof.
  unfold asin_refused, addBookManually, mirrored.
  destruct (truthy (get bookData "asin")) eqn:Htruthy; cbn [negb orb].
  2: { left. split; [|by eexists].
       apply falsy_asin_invalid in Htruthy. tauto. }
  destruct (isValidASIN (get bookData "asin")) eqn:Hvalid; cbn [negb].
  2: { left. split; [auto | by eexists]. }
  run_store.
  destruct (list_find (λ book, asin book = get bookData "asin") (books (library w)))
    as [[i book]|] eqn:Hfind; run_store.
  { left. split; [|by eexists]. right; right.
    apply find_asin_Some in Hfind as [Hi <-].
    apply list_elem_of_fmap. eauto using list_elem_of_lookup_2. }
  right. apply find_asin_None in Hfind. split.
  { intros [Hmissing|[?|?]]; [|done..]. by rewrite Hmissing in Htruthy. }
  destruct (truthy (get bookData "acquiredTime")); run_store;
    (eexists _, _; split; [reflexivity|];
     cbn [library books localStorage]; split_and!;
     [ done | by vm_compute | unfold asin, get; by simplify_map_eq
     | by rewrite lookup_insert_eq ]).
Qed.

(** C9. [addBookManually] throws exactly when the asin of the input is
    missing, fails [^[A-Z0-9]{10}$] or is already the asin of a book; when
    it throws, nothing has changed; when it returns, exactly one record has
    been appended, with source ['manual_add'] and the asin of the input, and
    that record is the result. *)
Theorem addBookManually_atomic (now : nat → Z) (JSON_stringify : Library → string)
    (bookData : Obj) (w : World) :
  (asin_refused bookData (books (library w)) ∧
   ∃ msg, addBookManually now JSON_stringify bookData w = (Thrown msg, w))
  ∨
  (¬ asin_refused bookData (books (library w)) ∧
   ∃ newBook w',
     addBookManually now JSON_stringify bookData w = (Returned newBook, w') ∧
     books (library w') = books (library w) ++ [newBook] ∧
     get newBook "source" = JStr "manual_add" ∧
     asin newBook = get bookData "asin").
Proof.
  destruct (addBookManually_run now JSON_stringify bookData w)
    as [?|(? & newBook & w' & ? & ? & ? & ? & _)]; [by left|].
  right. split; [done|]. by exists newBook, w'.
Qed.

(** *** The import loop, step by step *)

Lemma with_books_id w : with_books w (books (library w), clock w) = w.
Proof. by destruct w as [[? ?] ? ?]. Qed.

Lemma import_one_run now kindleBook r w :
  ∃ r',
    import_one now kindleBook r w
    = (Returned r', with_books w (merge_step now kindleBook (books (library w), clock w)))
    ∧ total r' = total r
    ∧ (added r' + updated r' + skipped r' = S (added r + updated r + skipped r))%nat
    ∧ (length (merge_step now kindleBook (books (library w), clock w)).1 + added r
       = length (books (library w)) + added r')%nat.
Proof.
  unfold import_one, merge_step. run_store.
  destruct (list_find (λ book, asin book = asin kindleBook) (books (library w)))
    as [[i existingBook]|]; run_store.
  - destruct (shouldUpdateBook existingBook kindleBook); run_store.
    + eexists. split; [reflexivity|]. cbn. rewrite length_insert.
      split_and!; (done || lia).
    + rewrite with_books_id. eexists. split; [reflexivity|]. cbn.
      split_and!; (done || lia).
  - eexists. split; [reflexivity|]. cbn. rewrite length_app. simpl.
    split_and!; (done || lia).
Qed.

Lemma for_of_import_run now kindleBooks r w :
  ∃ r',
    for_of kindleBooks r (import_one now) w
    = (Returned r', with_books w (merge_all now kindleBooks (books (library w), clock w)))
    ∧ total r' = total r
    ∧ (added r' + updated r' + skipped r'
       = added r + updated r + skipped r + length kindleBooks)%nat
    ∧ (length (merge_all now kindleBooks (books (library w), clock w)).1 + added r
       = length (books (library w)) + added r')%nat.
Proof.
  revert r w. induction kindleBooks as [|kb kbs IH]; intros r w.
  - exists r. simpl. rewrite with_books_id. split_and!; (done || lia).
  - destruct (import_one_run now kb r w) as (r1 & Hrun1 & Ht1 & Hsum1 & Hlen1).
    destruct (IH r1 (with_books w (merge_step now kb (books (library w), clock w))))
      as (r2 & Hrun2 & Ht2 & Hsum2 & Hlen2).
    exists r2. cbn [for_of]. unfold mbind, M_bind at 1. rewrite Hrun1, Hrun2.
    cbn [with_books library books clock metadata localStorage] in *.
    rewrite <- surjective_pairing in *.
    split_and!; [done | congruence | simpl; lia | simpl; lia].
Qed.

Lemma importFromKindle_run now JSON_stringify kindleBooks w :
  ∃ r w',
    importFromKindle now JSON_stringify kindleBooks w = (Returned r, w')
    ∧ books (library w') = (merge_all now kindleBooks (books (library w), clock w)).1
    ∧ total r = length kindleBooks
    ∧ (added r + updated r + skipped r = length kindleBooks)%nat
    ∧ (length (books (library w')) = length (books (library w)) + added r)%nat
    ∧ mirrored JSON_stringify w'.
Proof.
  unfold importFromKindle, mirrored.
  destruct (for_of_import_run now kindleBooks
              {| total := length kindleBooks; added := 0; updated := 0; skipped := 0 |} w)
    as (r & Hrun & Htotal & Hsum & Hlen).
  unfold mbind, M_bind at 1. rewrite Hrun. run_store.
  eexists _, _. split; [reflexivity|]. cbn in *.
  split_and!; [done | done | lia | lia | by rewrite lookup_insert_eq].
Qed.

(** C8. For every input list and every library, [importFromKindle] returns
    a result with [added + updated + skipped = total], [total] the number of
    input records, and [added] the growth of the books list. *)
Theorem importFromKindle_accounting (now : nat → Z)
    (JSON_stringify : Library → string) (kindleBooks : list Obj) (w : World) :
  ∃ r w',
    importFromKindle now JSON_stringify kindleBooks w = (Returned r, w')
    ∧ (added r + updated r + skipped r = total r)%nat
    ∧ total r = length kindleBooks
    ∧ (length (books (library w')) = length (books (library w)) + added r)%nat.
Proof.
  destruct (importFromKindle_run now JSON_stringify kindleBooks w)
    as (r & w' & Hrun & _ & Htotal & Hsum & Hlen & _).
  exists r, w'. split_and!; (done || lia).
Qed.

(** *** The merge keeps keys apart *)

Lemma get_kindle_fields kindleBook k :
  kindle_fields kindleBook !! k
  = if bool_decide (k ∈ kindle_field_names) then Some (get kindleBook k) else None.
Proof.
  unfold kindle_fields, kindle_field_names.
  repeat
    match goal with
    | |- <[?name := _]> _ !! k = _ =>
        destruct (decide (k = name)) as [->|];
          [ rewrite lookup_insert_eq, bool_decide_eq_true_2;
            [done | by repeat constructor]
          | rewrite (lookup_insert_ne _ name k) by done ]
    end.
  rewrite lookup_empty, bool_decide_eq_false_2; [done|].
  rewrite !elem_of_cons, elem_of_nil. tauto.
Qed.

Lemma get_assign_kindle existingBook kindleBook k :
  get (Object_assign existingBook (kindle_fields kindleBook)) k
  = if bool_decide (k ∈ kindle_field_names) then get kindleBook k
    else get existingBook k.
Proof.
  unfold get at 1, Object_assign. rewrite lookup_union, get_kindle_fields.
  destruct (bool_decide (k ∈ kindle_field_names)).
  - unfold union_with, option_union_with. by destruct (existingBook !! k).
  - unfold get. by destruct (existingBook !! k).
Qed.

Lemma get_kindle_record book t k :
  k ≠ "source" → k ≠ "addedDate" → get (kindle_record book t) k = get book k.
Proof. intros. unfold get, kindle_record. by rewrite !lookup_insert_ne by done. Qed.

Lemma source_kindle_record book t :
  get (kindle_record book t) "source" = JStr "kindle_import".
Proof. unfold get, kindle_record. by simplify_map_eq. Qed.

Lemma asin_kindle_record book t : asin (kindle_record book t) = asin book.
Proof. by apply get_kindle_record. Qed.

Lemma asin_assign_kindle existingBook kindleBook :
  asin (Object_assign existingBook (kindle_fields kindleBook)) = asin existingBook.
Proof. unfold asin. by rewrite get_assign_kindle. Qed.

(** Replacing a book by one with the same key leaves the keys as they were. *)
Lemma asins_insert_same (bs : list Obj) i book book' :
  bs !! i = Some book → asin book' = asin book → asins (<[i := book']> bs) = asins bs.
Proof.
  intros Hi Heq. unfold asins. rewrite list_fmap_insert, Heq.
  apply list_insert_id. by rewrite list_lookup_fmap, Hi.
Qed.

Lemma merge_step_asins now kindleBook bs c :
  asins (merge_step now kindleBook (bs, c)).1
  = if bool_decide (asin kindleBook ∈ asins bs) then asins bs
    else asins bs ++ [asin kindleBook].
Proof.
  unfold merge_step. cbn [fst snd].
  destruct (list_find (λ book, asin book = asin kindleBook) bs)
    as [[i existingBook]|] eqn:Hfind.
  - pose proof (find_asin_Some _ _ _ _ Hfind) as [Hi Hasin].
    rewrite bool_decide_eq_true_2.
    2: { rewrite <- Hasin. apply list_elem_of_fmap. eauto using list_elem_of_lookup_2. }
    destruct (shouldUpdateBook existingBook kindleBook); cbn [fst]; [|done].
    eapply asins_insert_same; [done|]. apply asin_assign_kindle.
  - apply find_asin_None in Hfind. rewrite bool_decide_eq_false_2 by done.
    cbn [fst]. unfold asins. rewrite fmap_app. simpl.
    by rewrite asin_kindle_record.
Qed.

Lemma asins_cons book bs : asins (book :: bs) = asin book :: asins bs.
Proof. reflexivity. Qed.

Lemma merge_all_cons now kb kbs st :
  merge_all now (kb :: kbs) st = merge_all now kbs (merge_step now kb st).
Proof. reflexivity. Qed.

Lemma merge_all_snoc now kbs kb st :
  merge_all now (kbs ++ [kb]) st = merge_step now kb (merge_all now kbs st).
Proof. unfold merge_all. by rewrite foldl_app. Qed.

(** After the loop the keys are the old keys followed by the new ones, each
    new key once. *)
Lemma merge_all_asins now kindleBooks bs c :
  ∃ fresh,
    asins (merge_all now kindleBooks (bs, c)).1 = asins bs ++ fresh
    ∧ NoDup fresh
    ∧ ∀ a, a ∈ fresh ↔ a ∈ asins kindleBooks ∧ a ∉ asins bs.
Proof.
  revert bs c. induction kindleBooks as [|kb kbs IH]; intros bs c.
  - exists []. simpl. rewrite app_nil_r. split_and!; [done | constructor |].
    intros a. unfold asins at 1. simpl. rewrite elem_of_nil. tauto.
  - rewrite merge_all_cons.
    pose proof (merge_step_asins now kb bs c) as Hstep.
    destruct (merge_step now kb (bs, c)) as [bs1 c1]. cbn [fst] in Hstep.
    destruct (IH bs1 c1) as (fresh & Hasins & Hnodup & Hfresh).
    rewrite Hstep in Hasins, Hfresh.
    destruct (bool_decide (asin kb ∈ asins bs)) eqn:Hin.
    + apply bool_decide_eq_true in Hin.
      exists fresh. split_and!; [done..|]. intros a. rewrite Hfresh.
      rewrite asins_cons, elem_of_cons.
      split; [tauto|]. intros [[->|?] ?]; tauto.
    + apply bool_decide_eq_false in Hin.
      exists (asin kb :: fresh). split_and!.
      * by rewrite Hasins, <- app_assoc.
      * constructor; [|done]. rewrite Hfresh, elem_of_app, list_elem_of_singleton.
        tauto.
      * intros a. rewrite elem_of_cons, Hfresh, elem_of_app, list_elem_of_singleton.
        rewrite asins_cons, elem_of_cons.
        destruct (decide (a = asin kb)) as [->|]; tauto.
Qed.

Lemma merge_all_NoDup now kindleBooks bs c :
  NoDup (asins bs) → NoDup (asins (merge_all now kindleBooks (bs, c)).1).
Proof.
  intros Hnodup.
  destruct (merge_all_asins now kindleBooks bs c) as (fresh & -> & Hfresh & Hiff).
  apply NoDup_app. split_and!; [done | | done].
  intros a Ha Hin. apply Hiff in Hin. tauto.
Qed.

Lemma books_after_merge_all now JSON_stringify kindleBooks w :
  books_after now JSON_stringify kindleBooks w
  = (merge_all now kindleBooks (books (library w), clock w)).1.
Proof.
  unfold books_after.
  destruct (importFromKindle_run now JSON_stringify kindleBooks w)
    as (r & w' & -> & Hbooks & _). done.
Qed.

(** *** What happens to one incoming record *)

Lemma shouldUpdateBook_differs existingBook newBook :
  shouldUpdateBook existingBook newBook = true ↔ differs existingBook newBook.
Proof.
  unfold shouldUpdateBook, differs.
  rewrite !orb_true_iff, !negb_true_iff, !bool_decide_eq_false. tauto.
Qed.

Lemma merge_step_cases now kindleBook bs c :
  (asin kindleBook ∈ asins bs →
   merged_existing kindleBook bs (merge_step now kindleBook (bs, c)).1)
  ∧ (asin kindleBook ∉ asins bs →
     appended_new kindleBook bs (merge_step now kindleBook (bs, c)).1).
Proof.
  unfold merge_step. cbn [fst snd].
  destruct (list_find (λ book, asin book = asin kindleBook) bs)
    as [[i existingBook]|] eqn:Hfind.
  - pose proof (find_asin_Some _ _ _ _ Hfind) as [Hi Hasin].
    split.
    + intros _. exists i, existingBook.
      destruct (shouldUpdateBook existingBook kindleBook) eqn:Hshould; cbn [fst].
      * apply shouldUpdateBook_differs in Hshould.
        split_and!; [done | done | by rewrite length_insert |].
        left. split; [done|]. eexists. split; [|done].
        intros k. apply get_assign_kindle.
      * split_and!; [done..|]. right. split; [|done].
        rewrite <- shouldUpdateBook_differs. congruence.
    + intros Hnot. exfalso. apply Hnot. rewrite <- Hasin.
      apply list_elem_of_fmap. eauto using list_elem_of_lookup_2.
  - apply find_asin_None in Hfind. split; [done|]. intros _. cbn [fst].
    exists (kindle_record kindleBook (now c)), (now c).
    split_and!; [done | apply asin_kindle_record | apply source_kindle_record | |].
    + unfold get, kindle_record. by simplify_map_eq.
    + intros k ? ?. by apply get_kindle_record.
Qed.

(** A round leaves every record where it stands and changes none of its
    fields but the five imported ones, and no field of a record with
    another key. *)
Lemma merge_step_keeps now kindleBook bs c i book :
  bs !! i = Some book →
  ∃ book',
    (merge_step now kindleBook (bs, c)).1 !! i = Some book'
    ∧ (∀ k, k ∉ kindle_field_names → get book' k = get book k)
    ∧ (asin book ≠ asin kindleBook → book' = book).
Proof.
  intros Hi. unfold merge_step. cbn [fst snd].
  destruct (list_find (λ b, asin b = asin kindleBook) bs) as [[j e]|] eqn:Hfind.
  - destruct (shouldUpdateBook e kindleBook); cbn [fst]; [|by eauto].
    apply find_asin_Some in Hfind as [Hj Hasin].
    destruct (decide (i = j)) as [->|Hne].
    + rewrite Hi in Hj. injection Hj as ->.
      eexists. split; [apply list_lookup_insert_eq; eauto using lookup_lt_Some|].
      split; [|done].
      intros k Hk. rewrite get_assign_kindle. by rewrite bool_decide_eq_false_2.
    + exists book. by rewrite list_lookup_insert_ne.
  - cbn [fst]. exists book. split; [|done]. by apply lookup_app_l_Some.
Qed.

Lemma merge_all_keeps now kindleBooks bs c i book :
  bs !! i = Some book →
  ∃ book',
    (merge_all now kindleBooks (bs, c)).1 !! i = Some book'
    ∧ (∀ k, k ∉ kindle_field_names → get book' k = get book k)
    ∧ (asin book ∉ asins kindleBooks → book' = book).
Proof.
  revert bs c book. induction kindleBooks as [|kb kbs IH]; intros bs c book Hi.
  { exists book. by split_and!. }
  rewrite merge_all_cons.
  destruct (merge_step_keeps now kb bs c i book Hi) as (book1 & Hi1 & Hkept1 & Hsame1).
  destruct (merge_step now kb (bs, c)) as [bs1 c1]. cbn [fst] in Hi1.
  destruct (IH bs1 c1 book1 Hi1) as (book2 & Hi2 & Hkept2 & Hsame2).
  exists book2. split_and!; [done | |].
  - intros k Hk. by rewrite Hkept2, Hkept1.
  - rewrite asins_cons, not_elem_of_cons. intros [Hne Hnot].
    rewrite <- (Hsame1 Hne). apply Hsame2. by rewrite (Hsame1 Hne).
Qed.

(** C2. [importFromKindle] is a deduplicated merge.  Starting from books
    with distinct asins: the keys after the import are the old keys followed
    by the new keys of the input, each once, so that they are distinct again;
    every record of the library stays at its place, with its asin and every
    field other than the five imported ones as they were, and unchanged
    altogether when no incoming record has its asin; an import of nothing
    leaves the books of the library; and each incoming record, met with the
    books [bs] left by the records before it, either has a key of [bs], and
    then appends nothing and overwrites the five imported fields of the
    record with that key exactly when [acquiredTime], [readStatus], [title]
    or [productImage] differs, or has a new key, and then is appended once
    with source ['kindle_import']. *)
Theorem importFromKindle_dedup_merge (now : nat → Z)
    (JSON_stringify : Library → string) (kindleBooks : list Obj) (w : World) :
  NoDup (asins (books (library w))) →
  (∃ fresh,
     asins (books_after now JSON_stringify kindleBooks w)
     = asins (books (library w)) ++ fresh
     ∧ NoDup (asins (books_after now JSON_stringify kindleBooks w))
     ∧ ∀ a, a ∈ fresh ↔ a ∈ asins kindleBooks ∧ a ∉ asins (books (library w)))
  ∧ (∀ i existingBook,
       books (library w) !! i = Some existingBook →
       ∃ book',
         books_after now JSON_stringify kindleBooks w !! i = Some book'
         ∧ asin book' = asin existingBook
         ∧ (∀ k, k ∉ kindle_field_names → get book' k = get existingBook k)
         ∧ (asin existingBook ∉ asins kindleBooks → book' = existingBook))
  ∧ books_after now JSON_stringify [] w = books (library w)
  ∧ ∀ before kindleBook rest,
      kindleBooks = before ++ kindleBook :: rest →
      NoDup (asins (books_after now JSON_stringify before w))
      ∧ (asin kindleBook ∈ asins (books_after now JSON_stringify before w) →
         merged_existing kindleBook
           (books_after now JSON_stringify before w)
           (books_after now JSON_stringify (before ++ [kindleBook]) w))
      ∧ (asin kindleBook ∉ asins (books_after now JSON_stringify before w) →
         appended_new kindleBook
           (books_after now JSON_stringify before w)
           (books_after now JSON_stringify (before ++ [kindleBook]) w)).
Proof.
  intros Hnodup. split_and!.
  - rewrite books_after_merge_all.
    destruct (merge_all_asins now kindleBooks (books (library w)) (clock w))
      as (fresh & Hasins & Hfresh & Hiff).
    exists fresh. split_and!; [done | | done].
    by apply merge_all_NoDup.
  - intros i existingBook Hi. rewrite books_after_merge_all.
    destruct (merge_all_keeps now kindleBooks _ (clock w) i existingBook Hi)
      as (book' & Hi' & Hkept & Hsame).
    exists book'. split_and!; [done | | done | done].
    apply Hkept. unfold kindle_field_names.
    repeat (apply not_elem_of_cons; split; [done|]). apply not_elem_of_nil.
  - by rewrite books_after_merge_all.
  - intros before kindleBook rest _.
    rewrite !books_after_merge_all, merge_all_snoc.
    split; [by apply merge_all_NoDup|].
    destruct (merge_all now before (books (library w), clock w)) as [bs c].
    apply merge_step_cases.
Qed.

Lemma importFromKindle_dedup_merge_witness :
  let w := {| library :=
                {| books := [ {["asin" := JStr "B00TEST001"; "title" := JStr "Old";
                                "source" := JStr "manual_add"]};
                              {["asin" := JStr "B00TEST003"; "title" := JStr "Three"]} ];
                   metadata := metadata empty_library |};
              localStorage := ∅;
              clock := 0 |} in
  let kindleBooks :=
    [ {["asin" := JStr "B00TEST001"; "title" := JStr "New"]};
      {["asin" := JStr "B00TEST002"; "title" := JStr "Two"]};
      {["asin" := JStr "B00TEST002"; "title" := JStr "Two"]} ] in
  let after := books_after (λ n, Z.of_nat n) (λ _, "") kindleBooks w in
  NoDup (asins (books (library w)))
  ∧ asins after = [JStr "B00TEST001"; JStr "B00TEST003"; JStr "B00TEST002"]
  ∧ (λ book, get book "title") <$> after
    = [JStr "New"; JStr "Three"; JStr "Two"]
  ∧ (λ book, get book "source") <$> after
    = [JStr "manual_add"; JUndefined; JStr "kindle_import"]
  ∧ (∃ fresh, asins after = asins (books (library w)) ++ fresh)
  ∧ after !! 1%nat = books (library w) !! 1%nat
  ∧ merged_existing {["asin" := JStr "B00TEST001"; "title" := JStr "New"]}
      (books (library w))
      (books_after (λ n, Z.of_nat n) (λ _, "")
         [ {["asin" := JStr "B00TEST001"; "title" := JStr "New"]} ] w).
Proof.
  intros w kindleBooks after.
  assert (NoDup (asins (books (library w)))) as Hnodup.
  { apply (bool_decide_unpack _). vm_compute. reflexivity. }
  split; [exact Hnodup|]. split; [vm_compute; reflexivity|].
  split; [vm_compute; reflexivity|]. split; [vm_compute; reflexivity|].
  destruct (importFromKindle_dedup_merge (λ n, Z.of_nat n) (λ _, "") kindleBooks w Hnodup)
    as ((fresh & Hasins & _) & Hkept & Hnothing & Hrounds).
  split; [by exists fresh|]. split.
  - destruct (Hkept 1%nat _ eq_refl) as (book' & Hafter & _ & _ & Hsame).
    rewrite Hsame in Hafter; [exact Hafter|].
    apply (bool_decide_unpack _). vm_compute. reflexivity.
  - destruct (Hrounds [] _ _ eq_refl) as (_ & Hmerged & _).
    rewrite Hnothing in Hmerged. apply Hmerged.
    apply (bool_decide_unpack _). vm_compute. reflexivity.
Defined.

(** *** The other operations, run *)

Lemma select_one_run now (existing : gset JsVal) book acc w :
  ∃ acc' added c',
    select_one now existing book acc w
    = (Returned acc', with_books w (books (library w) ++ added, c'))
    ∧ asins added = asins (filter (λ b, asin b ∉ existing) [book])
    ∧ acc'.1.1 = acc.1.1 ++ added.
Proof.
  destruct acc as [[importedBooks duplicateBooks] errorBooks].
  unfold select_one. run_store.
  rewrite filter_cons, filter_nil.
  destruct (decide (asin book ∈ existing)) as [Hin|Hnot].
  - rewrite bool_decide_eq_true_2 by done. run_store.
    rewrite decide_False by tauto.
    eexists _, [], (clock w). rewrite !app_nil_r, with_books_id. done.
  - rewrite bool_decide_eq_false_2 by done. run_store.
    rewrite decide_True by done.
    eexists _, [_], _. split; [reflexivity|]. split; [|done].
    unfold asins. simpl. by rewrite asin_kindle_record.
Qed.

Lemma for_of_select_run now (existing : gset JsVal) selected acc w :
  ∃ acc' added c',
    for_of selected acc (select_one now existing) w
    = (Returned acc', with_books w (books (library w) ++ added, c'))
    ∧ asins added = asins (filter (λ b, asin b ∉ existing) selected)
    ∧ acc'.1.1 = acc.1.1 ++ added.
Proof.
  revert acc w. induction selected as [|book selected IH]; intros acc w.
  - exists acc, [], (clock w). simpl. rewrite !app_nil_r, with_books_id. done.
  - destruct (select_one_run now existing book acc w)
      as (acc1 & added1 & c1 & Hrun1 & Hasins1 & Hacc1).
    destruct (IH acc1 (with_books w (books (library w) ++ added1, c1)))
      as (acc2 & added2 & c2 & Hrun2 & Hasins2 & Hacc2).
    exists acc2, (added1 ++ added2), c2.
    cbn [for_of]. unfold mbind, M_bind at 1. rewrite Hrun1, Hrun2.
    cbn [with_books library books fst snd metadata localStorage].
    rewrite <- app_assoc. split; [done|]. split.
    + change (book :: selected) with ([book] ++ selected).
      rewrite filter_app. unfold asins in *.
      by rewrite !fmap_app, Hasins1, Hasins2.
    + by rewrite Hacc2, Hacc1, <- app_assoc.
Qed.

Lemma importSelectedBooks_run now JSON_stringify selected w :
  ∃ r w' added,
    importSelectedBooks now JSON_stringify selected w = (Returned r, w')
    ∧ books (library w') = books (library w) ++ added
    ∧ asins added
      = asins (filter (λ b, asin b ∉ asins (books (library w))) selected)
    ∧ imported r = added
    ∧ mirrored JSON_stringify w'.
Proof.
  unfold importSelectedBooks, mirrored.
  unfold mbind at 1, M_bind at 1. unfold get_books at 1. cbv beta iota.
  destruct (for_of_select_run now (list_to_set (asin <$> books (library w)))
              selected ([], [], []) w)
    as ([[importedBooks duplicateBooks] errorBooks] & added & c' & Hrun & Hasins & Hacc).
  unfold mbind at 1, M_bind at 1. rewrite Hrun. run_store.
  eexists _, _, added. split; [reflexivity|].
  cbn [library books localStorage imported]. split_and!.
  - done.
  - rewrite Hasins. f_equal. apply list_filter_iff. intros b.
    by rewrite elem_of_list_to_set.
  - done.
  - by rewrite lookup_insert_eq.
Qed.

Lemma updateBook_run JSON_stringify a updates w :
  ((a ∉ asins (books (library w))) ∧
   ∃ msg, updateBook JSON_stringify a updates w = (Thrown msg, w))
  ∨
  (∃ i book w',
     books (library w) !! i = Some book ∧ asin book = a ∧
     updateBook JSON_stringify a updates w
     = (Returned (Object_assign book updates), w') ∧
     books (library w')
     = <[i := Object_assign book updates]> (books (library w)) ∧
     mirrored JSON_stringify w').
Proof.
  unfold updateBook, mirrored. run_store.
  destruct (list_find (λ book, asin book = a) (books (library w)))
    as [[i book]|] eqn:Hfind; run_store.
  - right. apply find_asin_Some in Hfind as [Hi Hasin].
    eexists i, book, _. split_and!; [done | done | reflexivity | done |].
    cbn [localStorage library]. by rewrite lookup_insert_eq.
  - left. apply find_asin_None in Hfind. split; [done | by eexists].
Qed.

Lemma deleteBook_run JSON_stringify a hardDelete w :
  ((a ∉ asins (books (library w))) ∧
   ∃ msg, deleteBook JSON_stringify a hardDelete w = (Thrown msg, w))
  ∨
  (∃ i book w',
     books (library w) !! i = Some book ∧ asin book = a ∧
     deleteBook JSON_stringify a hardDelete w = (Returned true, w') ∧
     books (library w')
     = (if hardDelete then delete i (books (library w)) else books (library w)) ∧
     mirrored JSON_stringify w').
Proof.
  unfold deleteBook, mirrored. run_store.
  destruct (list_find (λ book, asin book = a) (books (library w)))
    as [[i book]|] eqn:Hfind; run_store.
  - right. apply find_asin_Some in Hfind as [Hi Hasin].
    destruct hardDelete; run_store;
      (eexists i, book, _; split_and!; [done | done | reflexivity | done |];
       cbn [localStorage library]; by rewrite lookup_insert_eq).
  - left. apply find_asin_None in Hfind. split; [done | by eexists].
Qed.

Lemma clearAllBooks_run JSON_stringify w :
  ∃ w',
    clearAllBooks JSON_stringify w = (Returned true, w')
    ∧ library w' = empty_library
    ∧ mirrored JSON_stringify w'.
Proof.
  unfold clearAllBooks, mirrored. run_store.
  eexists. split; [reflexivity|]. cbn [localStorage library].
  split; [done | by rewrite lookup_insert_eq].
Qed.

(** ** Keys stay distinct *)

Lemma NoDup_insert_fresh (l : list JsVal) i x :
  NoDup l → x ∉ l → NoDup (<[i := x]> l).
Proof.
  intros Hnodup Hx. destruct (l !! i) as [y|] eqn:Hi.
  - rewrite insert_take_drop by eauto using lookup_lt_Some.
    rewrite <- (take_drop_middle l i y Hi) in Hnodup, Hx.
    rewrite NoDup_app, NoDup_cons in *. rewrite elem_of_app, elem_of_cons in Hx.
    destruct Hnodup as (Htake & Hdisj & Hy & Hdrop).
    split_and!; [done | | tauto | done].
    intros z Hz. rewrite elem_of_cons. intros [->|Hz'].
    + tauto.
    + apply (Hdisj z Hz). by right.
  - rewrite list_insert_ge; [done|]. by apply lookup_ge_None.
Qed.

Lemma asin_assign book updates :
  asin (Object_assign book updates) = default (asin book) (updates !! "asin").
Proof.
  unfold asin, get, Object_assign. rewrite lookup_union.
  destruct (updates !! "asin"), (book !! "asin"); done.
Qed.

(** C1, as the code has it.  From books with pairwise-distinct asins,
    [addBookManually], [importFromKindle] and [deleteBook] leave pairwise
    distinct asins for every input; [updateBook] does when its updates have
    no asin, or give the asin of the updated book, or an asin no book has. *)
Theorem record_keys_stay_distinct (now : nat → Z)
    (JSON_stringify : Library → string) (w : World) :
  NoDup (asins (books (library w))) →
  (∀ bookData,
     NoDup (asins (books (library (addBookManually now JSON_stringify bookData w).2))))
  ∧ (∀ kindleBooks,
       NoDup (asins (books (library
                (importFromKindle now JSON_stringify kindleBooks w).2))))
  ∧ (∀ a hardDelete,
       NoDup (asins (books (library (deleteBook JSON_stringify a hardDelete w).2))))
  ∧ (∀ a updates,
       (∀ v, updates !! "asin" = Some v → v = a ∨ v ∉ asins (books (library w))) →
       NoDup (asins (books (library (updateBook JSON_stringify a updates w).2)))).
Proof.
  intros Hnodup. split_and!.
  - intros bookData.
    destruct (addBookManually_run now JSON_stringify bookData w)
      as [(_ & msg & ->)|(Hok & newBook & w' & -> & Hbooks & _ & Hasin & _)];
      [done|].
    cbn [snd]. rewrite Hbooks. unfold asins. rewrite fmap_app. simpl.
    apply NoDup_app. split_and!; [done | | apply NoDup_singleton].
    intros x Hx ->%list_elem_of_singleton. apply Hok.
    right; right. by rewrite <- Hasin.
  - intros kindleBooks.
    fold (books_after now JSON_stringify kindleBooks w).
    rewrite books_after_merge_all. by apply merge_all_NoDup.
  - intros a hardDelete.
    destruct (deleteBook_run JSON_stringify a hardDelete w)
      as [(_ & msg & ->)|(i & book & w' & _ & _ & -> & Hbooks & _)]; [done|].
    cbn [snd]. rewrite Hbooks. destruct hardDelete; [|done].
    unfold asins. rewrite list_fmap_delete.
    eapply sublist_NoDup; [done | apply sublist_delete].
  - intros a updates Hupdates.
    destruct (updateBook_run JSON_stringify a updates w)
      as [(_ & msg & ->)|(i & book & w' & Hi & Hasin & -> & Hbooks & _)]; [done|].
    cbn [snd]. rewrite Hbooks.
    destruct (updates !! "asin") as [v|] eqn:Hv.
    + destruct (Hupdates v eq_refl) as [->|Hfresh].
      * eapply (asins_insert_same _ _ _ (Object_assign book updates)) in Hi as ->;
          [done|]. by rewrite asin_assign, Hv.
      * unfold asins. rewrite list_fmap_insert, asin_assign, Hv. simpl.
        by apply NoDup_insert_fresh.
    + eapply (asins_insert_same _ _ _ (Object_assign book updates)) in Hi as ->;
        [done|]. by rewrite asin_assign, Hv.
Qed.

Lemma record_keys_stay_distinct_witness :
  let w := sample_world [sample_book "B00TEST001" "One"; sample_book "B00TEST002" "Two"] in
  NoDup (asins (books (library w)))
  ∧ NoDup (asins (books (library
       (addBookManually sample_now sample_stringify
          (sample_book "B00TEST003" "Three") w).2)))
  ∧ NoDup (asins (books (library
       (importFromKindle sample_now sample_stringify
          [sample_book "B00TEST004" "Four"; sample_book "B00TEST004" "Four";
           sample_book "B00TEST002" "Two"] w).2)))
  ∧ NoDup (asins (books (library
       (deleteBook sample_stringify (JStr "B00TEST001") true w).2)))
  ∧ NoDup (asins (books (library
       (updateBook sample_stringify (JStr "B00TEST001")
          {[ "asin" := JStr "B00TEST009" ]} w).2))).
Proof.
  intros w.
  assert (NoDup (asins (books (library w)))) as Hnodup.
  { apply (bool_decide_unpack _). vm_compute. reflexivity. }
  destruct (record_keys_stay_distinct sample_now sample_stringify w Hnodup)
    as (Hadd & Himport & Hdelete & Hupdate).
  split_and!.
  - exact Hnodup.
  - apply Hadd.
  - apply Himport.
  - apply Hdelete.
  - apply Hupdate. intros v Hv. rewrite lookup_singleton_eq in Hv.
    injection Hv as <-. right. apply (bool_decide_unpack _). vm_compute. reflexivity.
Defined.

(** C1 as stated fails: [updateBook] merges its updates into the book with
    no look at their asin, and so accepts an update that gives a book the
    asin of another. *)
Lemma record_keys_collide :
  let w := sample_world [sample_book "B00TEST001" "One"; sample_book "B00TEST002" "Two"] in
  let after_update :=
    books (library
      (updateBook sample_stringify (JStr "B00TEST001")
         {[ "asin" := JStr "B00TEST002" ]} w).2) in
  NoDup (asins (books (library w)))
  ∧ asins after_update = [JStr "B00TEST002"; JStr "B00TEST002"]
  ∧ ¬ NoDup (asins after_update).
Proof.
  intros w after_update.
  assert (asins after_update = [JStr "B00TEST002"; JStr "B00TEST002"]) as Hupdate
    by (vm_compute; reflexivity).
  split_and!.
  - apply (bool_decide_unpack _). vm_compute. reflexivity.
  - exact Hupdate.
  - rewrite Hupdate. intros Hnodup. apply NoDup_cons in Hnodup as [Hnot _].
    apply Hnot. by left.
Qed.

(** ** Mirroring to local storage *)

(** C5, as the code has it.  [importFromKindle] and [importSelectedBooks],
    for every list of book records, and [clearAllBooks] return, and
    [addBookManually], [updateBook] and [deleteBook] return unless they
    refuse their input (an asin that is missing, invalid or taken; a key no
    book has); whatever the store held before, a call that returns has
    written the whole library, serialized, under ['virtualBookshelf_library']
    after its last change, so that the copy in local storage is the library
    in memory.  A call that refuses throws before it changes or writes
    anything. *)
Theorem library_mirrored_to_localStorage (now : nat → Z)
    (JSON_stringify : Library → string) (w : World) :
  (∀ bookData,
     writes_or_refuses JSON_stringify
       (asin_refused bookData (books (library w))) w
       (addBookManually now JSON_stringify bookData w))
  ∧ (∀ kindleBooks,
       writes JSON_stringify (importFromKindle now JSON_stringify kindleBooks w))
  ∧ (∀ selectedBooks,
       writes JSON_stringify
         (importSelectedBooks now JSON_stringify selectedBooks w))
  ∧ (∀ a updates,
       writes_or_refuses JSON_stringify (a ∉ asins (books (library w))) w
         (updateBook JSON_stringify a updates w))
  ∧ (∀ a hardDelete,
       writes_or_refuses JSON_stringify (a ∉ asins (books (library w))) w
         (deleteBook JSON_stringify a hardDelete w))
  ∧ writes JSON_stringify (clearAllBooks JSON_stringify w).
Proof.
  unfold writes, writes_or_refuses. split_and!.
  - intros bookData.
    by destruct (addBookManually_run now JSON_stringify bookData w)
      as [(? & msg & ->)|(? & newBook & w' & -> & _ & _ & _ & ?)].
  - intros kindleBooks.
    by destruct (importFromKindle_run now JSON_stringify kindleBooks w)
      as (r & w' & -> & _ & _ & _ & _ & ?).
  - intros selectedBooks.
    by destruct (importSelectedBooks_run now JSON_stringify selectedBooks w)
      as (r & w' & added & -> & _ & _ & _ & ?).
  - intros a updates.
    destruct (updateBook_run JSON_stringify a updates w)
      as [(? & msg & ->)|(i & book & w' & Hi & <- & -> & _ & ?)]; [done|].
    cbn [fst snd]. split; [|done]. intros Hnot. apply Hnot.
    apply list_elem_of_fmap. eauto using list_elem_of_lookup_2.
  - intros a hardDelete.
    destruct (deleteBook_run JSON_stringify a hardDelete w)
      as [(? & msg & ->)|(i & book & w' & Hi & <- & -> & _ & ?)]; [done|].
    cbn [fst snd]. split; [|done]. intros Hnot. apply Hnot.
    apply list_elem_of_fmap. eauto using list_elem_of_lookup_2.
  - by destruct (clearAllBooks_run JSON_stringify w) as (w' & -> & _ & ?).
Qed.

(** C5 as stated fails: a call that refuses its input writes nothing.
    [initialize] leaves local storage empty when it loads the library from
    [library.json]; [deleteBook] for a key no book has, and [addBookManually]
    for an asin that is taken, then throw, and local storage still holds no
    copy of the library. *)
Lemma refused_call_writes_nothing :
  let file :=
    {| exportDate := JStr "2023-11-14T22:13:20.000Z";
       export_books := {[ "B00TEST001" := sample_full_book "B00TEST001" ]};
       stats_totalBooks := 1;
       stats_notesCount := 0;
       version := JStr "2.0" |} in
  let w := (initialize_from_file (Some file) (sample_world [])).2 in
  let after_delete := deleteBook sample_stringify (JStr "B00TEST002") true w in
  let after_add :=
    addBookManually sample_now sample_stringify (sample_book "B00TEST001" "One") w in
  asins (books (library w)) = [JStr "B00TEST001"]
  ∧ (∃ msg, after_delete.1 = Thrown msg)
  ∧ library after_delete.2 = library w
  ∧ localStorage after_delete.2 !! "virtualBookshelf_library" = None
  ∧ ¬ mirrored sample_stringify after_delete.2
  ∧ (∃ msg, after_add.1 = Thrown msg)
  ∧ localStorage after_add.2 !! "virtualBookshelf_library" = None
  ∧ ¬ mirrored sample_stringify after_add.2.
Proof.
  intros file w after_delete after_add.
  assert (localStorage after_delete.2 !! "virtualBookshelf_library" = None)
    as Hdelete by (vm_compute; reflexivity).
  assert (localStorage after_add.2 !! "virtualBookshelf_library" = None)
    as Hadd by (vm_compute; reflexivity).
  split_and!.
  - vm_compute. reflexivity.
  - eexists. vm_compute. reflexivity.
  - vm_compute. reflexivity.
  - exact Hdelete.
  - unfold mirrored. rewrite Hdelete. discriminate.
  - eexists. vm_compute. reflexivity.
  - exact Hadd.
  - unfold mirrored. rewrite Hadd. discriminate.
Qed.

(** ** Ratings *)

Lemma ensure_note_in_range a notes :
  ratings_in_range notes → ratings_in_range (ensure_note a notes).
Proof.
  intros Hnotes. unfold ensure_note.
  destruct (notes !! ToString a) eqn:Hnote; [done|].
  apply map_Forall_insert; [done|]. split; [|done].
  exists 0. simpl. split; [done | lia].
Qed.

(** C7, as the code has it.  When every stored rating is an integer from 0
    to 5, it is so again after [saveNote], for every memo, and after
    [saveRating] called with an integer from 0 to 5. *)
Theorem ratings_stay_in_range (notes : gmap string Note) :
  ratings_in_range notes →
  (∀ a m, ratings_in_range (saveNote a m notes))
  ∧ (∀ a r, 0 ≤ r ≤ 5 → ratings_in_range (saveRating a (JNum r) notes)).
Proof.
  intros Hnotes. split.
  - intros a m. unfold saveNote. intros k note.
    rewrite lookup_alter. case_decide as Hk.
    + subst k. destruct (ensure_note a notes !! ToString a) as [old|] eqn:Hold;
        [|done].
      intros [= <-]. simpl.
      by apply (ensure_note_in_range a notes Hnotes (ToString a) old).
    + by apply ensure_note_in_range.
  - intros a r Hr. unfold saveRating. intros k note.
    rewrite lookup_alter. case_decide as Hk.
    + subst k. destruct (ensure_note a notes !! ToString a) as [old|] eqn:Hold;
        [|done].
      intros [= <-]. simpl. by exists r.
    + by apply ensure_note_in_range.
Qed.

Lemma ratings_stay_in_range_witness :
  let notes : gmap string Note :=
    {[ "B00TEST001" := {| memo := JStr "good"; rating := JNum 3 |} ]} in
  ratings_in_range notes
  ∧ ratings_in_range (saveNote (JStr "B00TEST002") (JStr "later") notes)
  ∧ ratings_in_range (saveRating (JStr "B00TEST001") (JNum 5) notes)
  ∧ rating <$> saveRating (JStr "B00TEST001") (JNum 5) notes !! "B00TEST001"
    = Some (JNum 5).
Proof.
  intros notes.
  assert (ratings_in_range notes) as Hnotes.
  { apply map_Forall_singleton. exists 3. simpl. split; [done | lia]. }
  destruct (ratings_stay_in_range notes Hnotes) as [Hnote Hrating].
  split_and!; [exact Hnotes | apply Hnote | apply Hrating; lia |].
  vm_compute. reflexivity.
Defined.

(** C7 as stated fails: [saveRating] stores the rating it is given. *)
Lemma saveRating_out_of_range :
  ratings_in_range ∅
  ∧ rating <$> saveRating (JStr "B00TEST001") (JNum 7) ∅ !! "B00TEST001"
    = Some (JNum 7)
  ∧ ¬ ratings_in_range (saveRating (JStr "B00TEST001") (JNum 7) ∅).
Proof.
  assert (saveRating (JStr "B00TEST001") (JNum 7) ∅ !! "B00TEST001"
          = Some {| memo := JStr ""; rating := JNum 7 |}) as Hsaved
    by (vm_compute; reflexivity).
  split_and!.
  - apply map_Forall_empty.
  - by rewrite Hsaved.
  - intros Hrange. apply Hrange in Hsaved as (n & [= <-] & Hn). simpl in Hn. lia.
Qed.

(** ** Custom order *)

Lemma indexOf_lower a x : -1 ≤ indexOf a x.
Proof.
  induction a as [|y a IH]; simpl; [lia|].
  destruct (decide (y = x)); [lia|].
  destruct (indexOf a x =? -1) eqn:Hi; lia.
Qed.

Lemma indexOf_absent a x : indexOf a x = -1 ↔ (x ∉ a).
Proof.
  induction a as [|y a IH]; simpl.
  - split; [intros _; apply not_elem_of_nil | done].
  - rewrite not_elem_of_cons. destruct (decide (y = x)) as [->|Hne].
    + split; [lia | tauto].
    + pose proof (indexOf_lower a x).
      destruct (indexOf a x =? -1) eqn:Hi.
      * apply Z.eqb_eq in Hi. split; [|done]. intros _. split; [done|].
        by apply IH.
      * apply Z.eqb_neq in Hi. split; [lia|]. intros [_ Hnot].
        apply IH in Hnot. lia.
Qed.

(** Where the first occurrence of a present value is. *)
Lemma indexOf_split a x :
  x ∈ a →
  ∃ pre post,
    a = pre ++ x :: post ∧ (x ∉ pre) ∧ indexOf a x = Z.of_nat (length pre).
Proof.
  induction a as [|y a IH]; [by intros ?%elem_of_nil|].
  intros Hin. simpl. destruct (decide (y = x)) as [->|Hne].
  - exists [], a. split_and!; [done | apply not_elem_of_nil | done].
  - apply elem_of_cons in Hin as [->|Hin]; [done|].
    destruct (IH Hin) as (pre & post & -> & Hpre & Hidx).
    exists (y :: pre), post. rewrite Hidx. split_and!.
    + done.
    + rewrite not_elem_of_cons. split; [congruence | done].
    + destruct (Z.of_nat (length pre) =? -1) eqn:Hi; [apply Z.eqb_eq in Hi; lia|].
      simpl length. lia.
Qed.

Section CustomOrder.
Variable customOrder : list JsVal.

Local Abbreviation cmp := (custom_compare customOrder).
Local Abbreviation idx := (order_index customOrder).
Local Abbreviation listed := (is_listed customOrder).

Lemma cmp_unlisted x y : ¬ listed x → (cmp x y <=? 0) = bool_decide (¬ listed y).
Proof.
  intros Hx. unfold cmp, custom_compare, listed in *.
  apply indexOf_absent in Hx. rewrite Hx. simpl.
  destruct (indexOf customOrder (asin y) =? -1) eqn:Hy.
  - apply Z.eqb_eq, indexOf_absent in Hy. by rewrite bool_decide_eq_true_2.
  - apply Z.eqb_neq in Hy. rewrite indexOf_absent in Hy.
    by rewrite bool_decide_eq_false_2.
Qed.

Lemma cmp_listed_unlisted x y : listed x → ¬ listed y → (cmp x y <=? 0) = true.
Proof.
  intros Hx Hy. unfold cmp, custom_compare, listed in *.
  apply indexOf_absent in Hy. rewrite Hy.
  destruct (indexOf customOrder (asin x) =? -1) eqn:Hix; [|done].
  apply Z.eqb_eq, indexOf_absent in Hix. done.
Qed.

Lemma cmp_listed x y :
  listed x → listed y → (cmp x y <=? 0) = bool_decide (idx x ≤ idx y).
Proof.
  intros Hx Hy. unfold cmp, custom_compare, listed, idx in *.
  destruct (indexOf customOrder (asin x) =? -1) eqn:Hix.
  { apply Z.eqb_eq, indexOf_absent in Hix. done. }
  destruct (indexOf customOrder (asin y) =? -1) eqn:Hiy.
  { apply Z.eqb_eq, indexOf_absent in Hiy. done. }
  simpl. destruct (decide (indexOf customOrder (asin x) ≤ indexOf customOrder (asin y))).
  - rewrite bool_decide_eq_true_2 by done. apply Z.leb_le. lia.
  - rewrite bool_decide_eq_false_2 by done. apply Z.leb_gt. lia.
Qed.

Lemma sort_insert_perm x (l : list Obj) : sort_insert cmp x l ≡ₚ x :: l.
Proof.
  induction l as [|y l IH]; simpl; [done|].
  destruct (cmp x y <=? 0); [done|]. rewrite IH. apply Permutation_swap.
Qed.

Lemma sort_insert_unlisted x ordered unordered :
  ¬ listed x → Forall listed ordered → Forall (λ b, ¬ listed b) unordered →
  sort_insert cmp x (ordered ++ unordered) = ordered ++ x :: unordered.
Proof.
  intros Hx Hordered Hunordered.
  induction Hordered as [|y ordered Hy _ IH]; simpl.
  - destruct Hunordered as [|z unordered Hz _]; simpl; [done|].
    by rewrite cmp_unlisted, bool_decide_eq_true_2.
  - rewrite cmp_unlisted by done.
    rewrite bool_decide_eq_false_2 by tauto. by rewrite IH.
Qed.

Lemma sort_insert_listed x ordered unordered :
  listed x → Forall (λ b, ¬ listed b) unordered →
  sort_insert cmp x (ordered ++ unordered) = sort_insert cmp x ordered ++ unordered.
Proof.
  intros Hx Hunordered. induction ordered as [|y ordered IH]; simpl.
  - destruct Hunordered as [|z unordered Hz _]; simpl; [done|].
    by rewrite cmp_listed_unlisted.
  - destruct (cmp x y <=? 0); [done|]. by rewrite IH.
Qed.

Lemma sort_insert_sorted x ordered :
  listed x → Forall listed ordered →
  StronglySorted (λ a b, idx a ≤ idx b) ordered →
  StronglySorted (λ a b, idx a ≤ idx b) (sort_insert cmp x ordered).
Proof.
  intros Hx Hlisted Hsorted.
  induction Hsorted as [|y ordered Hsorted IH Hy]; simpl.
  - repeat constructor.
  - apply Forall_cons in Hlisted as [Hly Hlisted].
    rewrite cmp_listed by done. case_bool_decide as Hle.
    + constructor; [by constructor|]. constructor; [done|].
      eapply Forall_impl; [exact Hy|]. simpl. intros z ?. lia.
    + constructor; [by apply IH|].
      rewrite sort_insert_perm. constructor; [lia | done].
Qed.

(** The sorted list is the listed books, in the order of the list, followed
    by the unlisted books as they stood. *)
Lemma Array_sort_custom (l : list Obj) :
  ∃ ordered,
    Array_sort cmp l = ordered ++ filter (λ b, ¬ listed b) l
    ∧ ordered ≡ₚ filter listed l
    ∧ StronglySorted (λ a b, idx a ≤ idx b) ordered.
Proof.
  induction l as [|x l (ordered & Hsort & Hperm & Hsorted)].
  - exists []. split_and!; [done | done | constructor].
  - assert (Forall listed ordered) as Hlisted.
    { rewrite Hperm. apply Forall_forall. by intros b [? _]%list_elem_of_filter. }
    assert (Forall (λ b, ¬ listed b) (filter (λ b, ¬ listed b) l)) as Hunlisted.
    { apply Forall_forall. by intros b [? _]%list_elem_of_filter. }
    unfold Array_sort in *. simpl foldr. rewrite Hsort.
    rewrite !filter_cons. destruct (decide (listed x)) as [Hx|Hx].
    + rewrite decide_False by tauto.
      exists (sort_insert cmp x ordered). split_and!.
      * by apply sort_insert_listed.
      * by rewrite sort_insert_perm, Hperm.
      * by apply sort_insert_sorted.
    + rewrite decide_True by done.
      exists ordered. split_and!; [|done..].
      by apply sort_insert_unlisted.
Qed.
End CustomOrder.

(** C3. With the sort order ['custom'] and a custom-order list for the
    current bookshelf, the books to render are: first the filtered books whose
    asin is in the list, sorted by the index of their asin in it, then the
    filtered books whose asin is not in the list, in the relative order they
    had among the filtered books. *)
Theorem custom_order_display (app : App) (currentBookshelfId : string)
    (orders : gmap string (list JsVal)) (customOrder : list JsVal) :
  sortOrder app = "custom" →
  bookOrder app = Some orders →
  orders !! currentBookshelfId = Some customOrder →
  ∃ ordered,
    booksToRender app currentBookshelfId
    = ordered ++ filter (λ b, asin b ∉ customOrder) (filteredBooks app)
    ∧ ordered ≡ₚ filter (λ b, asin b ∈ customOrder) (filteredBooks app)
    ∧ StronglySorted
        (λ a b, indexOf customOrder (asin a) ≤ indexOf customOrder (asin b))
        ordered.
Proof.
  intros Hsort Horders Hcustom. unfold booksToRender.
  rewrite bool_decide_eq_true_2, Horders, Hcustom by done.
  apply Array_sort_custom.
Qed.

Lemma custom_order_display_witness :
  let customOrder := [JStr "C"; JStr "A"] in
  let app :=
    {| bookOrder := Some {[ "shelf" := customOrder ]};
       filteredBooks := [ sample_book "X" "x"; sample_book "A" "a";
                          sample_book "Y" "y"; sample_book "C" "c" ];
       sortOrder := "custom" |} in
  asin <$> booksToRender app "shelf" = [JStr "C"; JStr "A"; JStr "X"; JStr "Y"]
  ∧ ∃ ordered,
      booksToRender app "shelf"
      = ordered ++ filter (λ b, asin b ∉ customOrder) (filteredBooks app).
Proof.
  intros customOrder app. split; [vm_compute; reflexivity|].
  destruct (custom_order_display app "shelf" {[ "shelf" := customOrder ]} customOrder)
    as (ordered & Heq & _); [reflexivity | reflexivity | apply lookup_singleton_eq |].
  by exists ordered.
Defined.

(** ** Reordering *)

Lemma filter_ne_absent (x : JsVal) (l : list JsVal) :
  x ∉ l → filter (λ y, y ≠ x) l = l.
Proof.
  intros Hx. induction l as [|y l IH]; [done|].
  apply not_elem_of_cons in Hx as [Hne Hx].
  rewrite filter_cons, decide_True by congruence. by rewrite IH.
Qed.

Lemma filter_eq_absent (x : JsVal) (l : list JsVal) :
  x ∉ l → filter (λ y, y = x) l = [].
Proof.
  intros Hx. induction l as [|y l IH]; [done|].
  apply not_elem_of_cons in Hx as [Hne Hx].
  rewrite filter_cons, decide_False by congruence. auto.
Qed.

Lemma at_most_once_absent_after (x : JsVal) (pre post : list JsVal) :
  at_most_once x (pre ++ x :: post) → x ∉ post.
Proof.
  unfold at_most_once. rewrite filter_app, filter_cons, decide_True by done.
  rewrite length_app. simpl. intros Hlen Hin.
  assert (x ∈ filter (λ y, y = x) post) as Hfiltered
    by by apply list_elem_of_filter.
  destruct (filter (λ y, y = x) post); [by apply elem_of_nil in Hfiltered|].
  simpl in Hlen. lia.
Qed.

(** Taking out the first occurrence of a value that occurs once takes the
    value out and leaves the rest as it stood. *)
Lemma splice_out_first (x : JsVal) (l : list JsVal) :
  x ∈ l → at_most_once x l →
  indexOf l x ≠ -1
  ∧ splice_out (Z.to_nat (indexOf l x)) l = filter (λ y, y ≠ x) l
  ∧ x ∉ filter (λ y, y ≠ x) l.
Proof.
  intros Hin Honce.
  destruct (indexOf_split l x Hin) as (pre & post & -> & Hpre & Hidx).
  pose proof (at_most_once_absent_after x pre post Honce) as Hpost.
  rewrite Hidx, Nat2Z.id. split_and!.
  - lia.
  - unfold splice_out. rewrite delete_take_drop, take_app_length.
    rewrite drop_app_ge by lia.
    replace (S (length pre) - length pre)%nat with 1%nat by lia. simpl drop.
    rewrite filter_app, filter_cons, decide_False by tauto.
    by rewrite !filter_ne_absent.
  - rewrite list_elem_of_filter. tauto.
Qed.

(** Putting [x] in at the first occurrence of [t]. *)
Lemma splice_in_before (x t : JsVal) (l : list JsVal) :
  t ∈ l →
  indexOf l t ≠ -1
  ∧ ∃ pre post,
      l = pre ++ t :: post
      ∧ (t ∉ pre)
      ∧ splice_in (Z.to_nat (indexOf l t)) x l = pre ++ x :: t :: post.
Proof.
  intros Hin.
  destruct (indexOf_split l t Hin) as (pre & post & -> & Hpre & Hidx).
  rewrite Hidx, Nat2Z.id. split; [lia|].
  exists pre, post. split_and!; [done..|].
  unfold splice_in. by rewrite take_app_length, drop_app_length.
Qed.

Lemma reorder_list_moves (stored : list JsVal) (filtered : list Obj)
    (draggedASIN targetASIN : JsVal) :
  targetASIN ∈ stored →
  draggedASIN ≠ targetASIN →
  at_most_once draggedASIN stored →
  ∃ pre post,
    reorder_list stored filtered draggedASIN targetASIN
    = pre ++ draggedASIN :: targetASIN :: post
    ∧ (draggedASIN ∉ pre)
    ∧ (draggedASIN ∉ post)
    ∧ (targetASIN ∉ pre)
    ∧ pre ++ targetASIN :: post = filter (λ y, y ≠ draggedASIN) stored.
Proof.
  intros Htarget Hne Honce. unfold reorder_list.
  rewrite bool_decide_eq_false_2.
  2: { destruct stored; [by apply elem_of_nil in Htarget | done]. }
  set (l1 := if includes stored draggedASIN then stored else stored ++ [draggedASIN]).
  assert (draggedASIN ∈ l1 ∧ at_most_once draggedASIN l1
          ∧ filter (λ y, y ≠ draggedASIN) l1 = filter (λ y, y ≠ draggedASIN) stored)
    as (Hin1 & Honce1 & Hfilter1).
  { unfold l1, includes. case_bool_decide as Hin; [done|].
    split_and!.
    - apply elem_of_app. right. by apply list_elem_of_singleton.
    - unfold at_most_once in *. rewrite filter_app, length_app.
      rewrite (filter_cons _ draggedASIN), decide_True by done. simpl.
      assert (filter (λ y, y = draggedASIN) stored = []) as ->; [|simpl; lia].
      by apply filter_eq_absent.
    - rewrite filter_app, (filter_cons _ draggedASIN), decide_False by tauto.
      by rewrite filter_nil, app_nil_r. }
  destruct (splice_out_first draggedASIN l1 Hin1 Honce1) as (Hidx & Hout & Hgone).
  rewrite (proj2 (Z.eqb_neq _ _) Hidx), Hout, Hfilter1.
  rewrite Hfilter1 in Hgone.
  assert (targetASIN ∈ filter (λ y, y ≠ draggedASIN) stored) as Htarget'.
  { apply list_elem_of_filter. split; [congruence | done]. }
  destruct (splice_in_before draggedASIN targetASIN _ Htarget')
    as (Hidx' & pre & post & Hsplit & Hpre & Hin).
  rewrite (proj2 (Z.eqb_neq _ _) Hidx'), Hin.
  exists pre, post. rewrite Hsplit in Hgone.
  rewrite elem_of_app, elem_of_cons in Hgone.
  split_and!; [done | tauto | tauto | done | done].
Qed.

(** C4, as the code has it.  When the custom-order list of the current
    bookshelf contains [targetASIN] and contains [draggedASIN] at most once,
    [reorderBooks] with a dragged key other than the target leaves a list in
    which the dragged key occurs once, immediately before the first
    occurrence of the target, and in which the other keys stand as they
    stood. *)
Theorem reorderBooks_moves_one (app : App) (currentBookshelfId : string)
    (orders : gmap string (list JsVal)) (stored : list JsVal)
    (draggedASIN targetASIN : JsVal) :
  bookOrder app = Some orders →
  orders !! currentBookshelfId = Some stored →
  targetASIN ∈ stored →
  draggedASIN ≠ targetASIN →
  at_most_once draggedASIN stored →
  ∃ orders' pre post,
    bookOrder (reorderBooks currentBookshelfId draggedASIN targetASIN app)
    = Some orders'
    ∧ orders' !! currentBookshelfId = Some (pre ++ draggedASIN :: targetASIN :: post)
    ∧ (draggedASIN ∉ pre)
    ∧ (draggedASIN ∉ post)
    ∧ (targetASIN ∉ pre)
    ∧ filter (λ y, y ≠ draggedASIN) (pre ++ draggedASIN :: targetASIN :: post)
      = filter (λ y, y ≠ draggedASIN) stored.
Proof.
  intros Horders Hstored Htarget Hne Honce.
  destruct (reorder_list_moves stored (filteredBooks app) draggedASIN targetASIN
              Htarget Hne Honce)
    as (pre & post & Hlist & Hpre & Hpost & Htpre & Hrest).
  unfold reorderBooks. rewrite Horders. simpl default. rewrite Hstored.
  simpl default. rewrite Hlist.
  eexists _, pre, post. split; [reflexivity|].
  rewrite lookup_insert_eq. split_and!; [done..|].
  rewrite <- Hrest, filter_app, (filter_cons _ draggedASIN).
  rewrite decide_False by tauto.
  rewrite filter_cons, decide_True by congruence.
  by rewrite !filter_ne_absent.
Qed.

Lemma reorderBooks_moves_one_witness :
  let stored := [JStr "A"; JStr "B"; JStr "C"; JStr "D"] in
  let app :=
    {| bookOrder := Some {[ "shelf" := stored ]};
       filteredBooks := [];
       sortOrder := "title" |} in
  JStr "B" ∈ stored
  ∧ JStr "D" ≠ JStr "B"
  ∧ at_most_once (JStr "D") stored
  ∧ (bookOrder (reorderBooks "shelf" (JStr "D") (JStr "B") app)
     ≫= λ orders', orders' !! "shelf")
    = Some [JStr "A"; JStr "D"; JStr "B"; JStr "C"]
  ∧ ∃ orders' pre post,
      bookOrder (reorderBooks "shelf" (JStr "D") (JStr "B") app) = Some orders'
      ∧ orders' !! "shelf" = Some (pre ++ JStr "D" :: JStr "B" :: post).
Proof.
  intros stored app.
  assert (JStr "B" ∈ stored) as Htarget by (apply (bool_decide_unpack _); by vm_compute).
  assert (JStr "D" ≠ JStr "B") as Hne by done.
  assert (at_most_once (JStr "D") stored) as Honce by (vm_compute; lia).
  split_and!; [done | done | done | vm_compute; reflexivity |].
  destruct (reorderBooks_moves_one app "shelf" {[ "shelf" := stored ]} stored
              (JStr "D") (JStr "B") eq_refl (lookup_singleton_eq _ _) Htarget Hne Honce)
    as (orders' & pre & post & Horders & Hlookup & _).
  by exists orders', pre, post.
Defined.

(** C4 as stated fails on a list that holds the dragged key twice: only its
    first occurrence is taken out. *)
Lemma reorderBooks_keeps_duplicate :
  let stored := [JStr "D"; JStr "D"; JStr "B"] in
  let app :=
    {| bookOrder := Some {[ "shelf" := stored ]};
       filteredBooks := [];
       sortOrder := "custom" |} in
  let result :=
    default [] (bookOrder (reorderBooks "shelf" (JStr "D") (JStr "B") app)
                ≫= λ orders', orders' !! "shelf") in
  JStr "B" ∈ stored
  ∧ JStr "D" ≠ JStr "B"
  ∧ result = [JStr "D"; JStr "D"; JStr "B"]
  ∧ length (filter (λ y, y = JStr "D") result) = 2%nat.
Proof.
  intros stored app result.
  split_and!; [ apply (bool_decide_unpack _); by vm_compute | done
              | vm_compute; reflexivity | vm_compute; reflexivity ].
Qed.

(** ** Export and import *)

Lemma js_or_truthy v d : truthy v = true → js_or v d = v.
Proof. unfold js_or. by intros ->. Qed.

Lemma js_or_default v d : v = d → js_or v d = v.
Proof. unfold js_or. intros ->. by destruct (truthy d). Qed.

Lemma js_or_survives v d : survives v d → js_or v d = v.
Proof. intros [?|?]; [by apply js_or_truthy | by apply js_or_default]. Qed.

Lemma export_one_kept now notes book acc w :
  kept_by_export book →
  export_one now notes book acc w
  = (Returned (<[(export_pair notes book).1 := (export_pair notes book).2]> acc), w).
Proof.
  intros ((s & Hasin & Hs & Hproto) & _ & _ & Hacquired & _ & _ & _ & Hadded).
  unfold export_one, export_pair. cbn [fst snd].
  assert (truthy (asin book) = true) as ->.
  { rewrite Hasin. simpl. by rewrite bool_decide_eq_false_2. }
  assert (bool_decide (ToString (asin book) = "__proto__") = false) as Hown.
  { rewrite Hasin. simpl. by apply bool_decide_eq_false_2. }
  run_store. rewrite Hacquired. run_store. rewrite Hadded. run_store.
  by rewrite Hown.
Qed.

Lemma for_of_export_kept now notes bs acc w :
  Forall kept_by_export bs →
  for_of bs acc (export_one now notes) w
  = (Returned (foldl (λ acc book, <[(export_pair notes book).1
                                     := (export_pair notes book).2]> acc) acc bs), w).
Proof.
  intros Hkept. revert acc.
  induction Hkept as [|book bs Hbook _ IH]; intros acc; [done|].
  cbn [for_of foldl]. unfold mbind, M_bind at 1.
  by rewrite export_one_kept, IH.
Qed.

Lemma foldl_insert_list_to_map {V} (l : list (string * V)) (acc : gmap string V) :
  foldl (λ acc kv, <[kv.1 := kv.2]> acc) acc l = list_to_map (reverse l) ∪ acc.
Proof.
  revert acc. induction l as [|[k v] l IH]; intros acc; simpl.
  - by rewrite (left_id_L ∅ (∪)).
  - rewrite IH, reverse_cons, list_to_map_app. simpl.
    rewrite <- (assoc_L (∪)). f_equal.
    by rewrite insert_empty, <- insert_union_singleton_l.
Qed.

Lemma exported_books_perm {V} (l : list (string * V)) :
  NoDup l.*1 →
  map_to_list (foldl (λ acc kv, <[kv.1 := kv.2]> acc) (∅ : gmap string V) l) ≡ₚ l.
Proof.
  intros Hnodup. rewrite foldl_insert_list_to_map, (right_id_L ∅ (∪)).
  rewrite map_to_list_to_map.
  - apply reverse_Permutation.
  - by rewrite fmap_reverse, reverse_Permutation.
Qed.

Lemma string_asins_NoDup (bs : list Obj) :
  Forall (λ book, ∃ s, asin book = JStr s) bs →
  NoDup (asins bs) → NoDup ((λ book, ToString (asin book)) <$> bs).
Proof.
  intros Hstr Hnodup.
  change (λ book, ToString (asin book)) with (ToString ∘ asin).
  rewrite list_fmap_compose. apply NoDup_fmap_2_strong; [|done].
  intros x y (bx & -> & Hbx)%list_elem_of_fmap (by' & -> & Hby)%list_elem_of_fmap.
  rewrite Forall_forall in Hstr.
  destruct (Hstr bx Hbx) as (sx & ->). destruct (Hstr by' Hby) as (sy & ->).
  simpl. by intros ->.
Qed.

Lemma get_insert_eq (o : Obj) k v : get (<[k := v]> o) k = v.
Proof. unfold get. by rewrite lookup_insert_eq. Qed.

Lemma get_insert_ne (o : Obj) k k' v : k ≠ k' → get (<[k := v]> o) k' = get o k'.
Proof. intros. unfold get. by rewrite lookup_insert_ne. Qed.

Lemma loaded_record_fields key entry :
  record_fields (loaded_record key entry)
  = [ JStr key; get entry "title"; get entry "authors"; get entry "acquiredTime";
      get entry "readStatus"; get entry "productImage"; get entry "source";
      get entry "addedDate" ].
Proof.
  unfold record_fields, field_names, loaded_record. cbn [fmap list_fmap].
  repeat (rewrite get_insert_eq || rewrite get_insert_ne by done). done.
Qed.

Lemma loaded_record_kept notes book :
  kept_by_export book →
  record_fields (loaded_record (export_pair notes book).1 (export_pair notes book).2)
  = record_fields book.
Proof.
  intros ((s & Hasin & _) & Htitle & Hauthors & Hacquired & Hstatus & Himage
          & Hsource & Hadded).
  rewrite loaded_record_fields. unfold export_pair. cbn [fst snd].
  unfold export_entry.
  repeat (rewrite get_insert_eq || rewrite get_insert_ne by done).
  rewrite (js_or_survives _ _ Htitle), (js_or_survives _ _ Hauthors),
    (js_or_survives _ _ Himage), (js_or_truthy _ _ Hstatus),
    (js_or_truthy _ _ Hsource).
  rewrite Hasin. simpl ToString. by rewrite <- Hasin.
Qed.

Lemma foldl_export_pairs notes (bs : list Obj) (acc : gmap string Obj) :
  foldl (λ acc book, <[(export_pair notes book).1 := (export_pair notes book).2]> acc)
    acc bs
  = foldl (λ acc kv, <[kv.1 := kv.2]> acc) acc (export_pair notes <$> bs).
Proof. revert acc. induction bs as [|book bs IH]; intros acc; simpl; auto. Qed.

(** C6, as the code has it.  For a library whose books have pairwise
    distinct asins, each a non-empty string other than ['__proto__'], and
    truthy values in the other seven fields (or an empty string for title,
    authors or productImage), exporting as [exportUnifiedData] does and
    loading the result through the library.json branch of [initialize] gives
    the same records: the same asin, title, authors, acquiredTime,
    readStatus, productImage, source and addedDate for every book. *)
Theorem export_import_round_trip (now : nat → Z) (toISOString : Z → string)
    (notes : gmap string Note) (w : World) :
  NoDup (asins (books (library w))) →
  Forall kept_by_export (books (library w)) →
  ∃ w',
    export_then_load now toISOString notes w = (Returned (), w')
    ∧ record_fields <$> books (library w') ≡ₚ record_fields <$> books (library w).
Proof.
  intros Hnodup Hkept.
  unfold export_then_load, exportUnifiedData, initialize_from_file.
  run_store. rewrite for_of_export_kept by done. run_store.
  eexists. split; [reflexivity|]. cbn [library books export_books].
  unfold loaded_books. cbn [export_books].
  rewrite foldl_export_pairs, exported_books_perm.
  2: { rewrite <- list_fmap_compose. apply string_asins_NoDup; [|done].
       eapply Forall_impl; [exact Hkept|]. intros book ((s & ? & _) & _). eauto. }
  rewrite <- !list_fmap_compose.
  assert ((record_fields ∘ (λ kb, loaded_record kb.1 kb.2) ∘ export_pair notes)
            <$> books (library w)
          = record_fields <$> books (library w)) as Hsame.
  { apply Forall_fmap_ext. eapply Forall_impl; [exact Hkept|].
    intros book Hbook. simpl. by apply loaded_record_kept. }
  by rewrite <- Hsame.
Qed.

Lemma export_import_round_trip_witness :
  let w := sample_world [sample_full_book "4003101014"; sample_full_book "B00TEST001"] in
  NoDup (asins (books (library w)))
  ∧ Forall kept_by_export (books (library w))
  ∧ ∃ w',
      export_then_load sample_now sample_toISOString ∅ w = (Returned (), w')
      ∧ record_fields <$> books (library w') ≡ₚ record_fields <$> books (library w).
Proof.
  intros w.
  assert (NoDup (asins (books (library w)))) as Hnodup.
  { apply (bool_decide_unpack _). vm_compute. reflexivity. }
  assert (Forall kept_by_export (books (library w))) as Hkept.
  { repeat apply Forall_cons_2; [| |apply Forall_nil_2];
      (split; [eexists; split_and!; [vm_compute; reflexivity | done | done]|]);
      unfold survives; split_and!;
      first [ vm_compute; reflexivity | left; vm_compute; reflexivity
            | right; vm_compute; reflexivity ]. }
  split; [exact Hnodup|]. split; [exact Hkept|].
  exact (export_import_round_trip sample_now sample_toISOString ∅ w Hnodup Hkept).
Defined.

(** C6 as stated fails: a book without a [readStatus] comes back with
    ['UNREAD'], a book whose asin is a number comes back with the asin as a
    string, and a book whose asin is ['__proto__'] does not come back, the
    export having no property of that name. *)
Lemma export_import_changes_records :
  let no_status : Obj :=
    {[ "asin" := JStr "B00TEST001"; "title" := JStr "Title";
       "authors" := JStr "Author"; "acquiredTime" := JNum 1600000000000;
       "productImage" := JStr "cover.jpg"; "source" := JStr "kindle_import";
       "addedDate" := JNum 1600000000001 ]} in
  let numeric : Obj := <["asin" := JNum 1234567890]> (sample_full_book "") in
  let reload (bs : list Obj) :=
    books (library (export_then_load sample_now sample_toISOString ∅
                      (sample_world bs)).2) in
  NoDup (asins [no_status])
  ∧ record_fields <$> [no_status]
    = [[ JStr "B00TEST001"; JStr "Title"; JStr "Author"; JNum 1600000000000;
         JUndefined; JStr "cover.jpg"; JStr "kindle_import"; JNum 1600000000001 ]]
  ∧ record_fields <$> reload [no_status]
    = [[ JStr "B00TEST001"; JStr "Title"; JStr "Author"; JNum 1600000000000;
         JStr "UNREAD"; JStr "cover.jpg"; JStr "kindle_import"; JNum 1600000000001 ]]
  ∧ ¬ (record_fields <$> reload [no_status] ≡ₚ record_fields <$> [no_status])
  ∧ NoDup (asins [numeric])
  ∧ asins (reload [numeric]) = [JStr "1234567890"]
  ∧ ¬ (record_fields <$> reload [numeric] ≡ₚ record_fields <$> [numeric])
  ∧ NoDup (asins [sample_full_book "__proto__"; sample_full_book "B00TEST001"])
  ∧ asins (reload [sample_full_book "__proto__"; sample_full_book "B00TEST001"])
    = [JStr "B00TEST001"]
  ∧ ¬ (record_fields
         <$> reload [sample_full_book "__proto__"; sample_full_book "B00TEST001"]
       ≡ₚ record_fields
            <$> [sample_full_book "__proto__"; sample_full_book "B00TEST001"]).
Proof.
  intros no_status numeric reload.
  assert (record_fields <$> reload [no_status]
          = [[ JStr "B00TEST001"; JStr "Title"; JStr "Author"; JNum 1600000000000;
               JStr "UNREAD"; JStr "cover.jpg"; JStr "kindle_import";
               JNum 1600000000001 ]]) as Hstatus by (vm_compute; reflexivity).
  assert (record_fields <$> reload [numeric]
          = [[ JStr "1234567890"; JStr "Title"; JStr "Author"; JNum 1600000000000;
               JStr "READ"; JStr ""; JStr "kindle_import"; JNum 1600000000001 ]])
    as Hnumeric by (vm_compute; reflexivity).
  assert (length (reload [sample_full_book "__proto__"; sample_full_book "B00TEST001"])
          = 1%nat) as Hproto by (vm_compute; reflexivity).
  split_and!.
  - apply NoDup_singleton.
  - vm_compute. reflexivity.
  - exact Hstatus.
  - rewrite Hstatus. intros Hperm%Permutation_singleton_inj. discriminate Hperm.
  - apply NoDup_singleton.
  - vm_compute. reflexivity.
  - rewrite Hnumeric. intros Hperm%Permutation_singleton_inj.
    vm_compute in Hperm. discriminate Hperm.
  - apply (bool_decide_unpack _). vm_compute. reflexivity.
  - vm_compute. reflexivity.
  - intros Hperm%Permutation_length. rewrite !length_fmap, Hproto in Hperm.
    discriminate Hperm.
Qed.
